(** * AssetLoader (scripts/asset-loader.js): configuration fallback,
      TTL cache, multi-source fallback and fetch-with-retry.

    The class is embedded as state-passing code over a world made of the
    [AssetLoader] instance ([this]) and the history of observable events
    (network requests, timer suspensions, console lines).  The host's
    [fetch] and [Date.now] are an oracle that may answer differently after
    every event.  The DOM helpers [applyCSS] and [loadCSSLink] act on a
    document given as the trees under [head] and [body].

    Values are as JavaScript has them.  A string is the UTF-8 encoding of
    the JavaScript string.  A number is an integer that a double holds;
    the one product the loader computes is rounded as a double is.  A
    property that is not there reads as [None] ([undefined]), and a
    property looked up by name on a plain object is also found on
    [Object.prototype]. *)

From stdpp Require Import gmap strings list fin_maps.
From Stdlib Require Import ZArith Lia.

Local Open Scope Z_scope.

(** ** Data model *)

(** One entry of [config.assets.css]; an absent property is [None]
    (JavaScript [undefined]). *)
Record CssConfig := mkCssConfig {
  github_raw : option string;
  github_pages : option string;
  fallback : option string
}.

Record CdnConfig := mkCdnConfig {
  primary_host : option string;
  cache_duration : option Z;
  retry_attempts : option Z;
  retry_delay : option Z
}.

(** [config.assets]; [css] is the plain object that maps asset names to
    their entries (its own properties). *)
Record Assets := mkAssets { css : option (gmap string CssConfig) }.

(** What the loader reads of a configuration object.  Nothing validates
    a decoded configuration, so every property may be missing; a property
    that is there has the type the loader expects. *)
Record Config := mkConfig {
  version : option string;
  assets : option Assets;
  cdn_config : option CdnConfig;
  update_check_url : option string
}.

(** An object with none of the properties the loader reads: [{}], an
    array, and what a property read finds on a truthy primitive. *)
Definition empty_object : Config :=
  {| version := None; assets := None; cdn_config := None;
     update_check_url := None |}.

(** A decoded JSON document: [null], a primitive (a boolean, a number or
    a string, of which the loader only sees the truthiness) or an object. *)
Inductive JsonValue :=
| JsonNull
| JsonPrimitive (truthy : bool)
| JsonObject (o : Config).

(** What the methods see of a value kept in [this.config]: [None] when
    it is falsy ([!this.config] holds, and [this.config?.p] is
    [undefined]), its properties otherwise. *)
Definition as_config (v : JsonValue) : option Config :=
  match v with
  | JsonNull => None
  | JsonPrimitive false => None
  | JsonPrimitive true => Some empty_object
  | JsonObject o => Some o
  end.

(** ** Numbers and strings *)

(** The value of an arithmetic expression over integers. *)
Inductive JsNumber :=
| Num (z : Z)
| Infinity
| NegInfinity.

(** The double nearest to the integer [p] (ties to the even mantissa):
    [p] itself below 2^53, a multiple of a power of two above, an
    infinity from 2^1024 on. *)
Definition js_round (p : Z) : JsNumber :=
  let a := Z.abs p in
  if a <? 2 ^ 53 then Num p
  else
    let q := 2 ^ (Z.log2 a - 52) in
    let m := a / q in
    let r := a mod q in
    let m' := if r <? q / 2 then m
              else if q / 2 <? r then m + 1
              else if Z.even m then m else m + 1 in
    if 2 ^ 1024 <=? m' * q then (if p <? 0 then NegInfinity else Infinity)
    else Num (Z.sgn p * (m' * q)).

(** [a * b] *)
Definition js_mul (a b : Z) : JsNumber := js_round (a * b).

(** The UTF-16 code units that the character starting with the byte [a]
    takes: none for a continuation byte, two for the first byte of a
    four-byte sequence, one otherwise. *)
Definition utf16_units (a : Ascii.ascii) : nat :=
  match a with
  | Ascii.Ascii _ _ _ _ _ _ false true => 0
  | Ascii.Ascii _ _ _ false true true true true => 2
  | _ => 1
  end.

(** [s.length] *)
Fixpoint js_length (s : string) : nat :=
  match s with
  | EmptyString => 0
  | String a s' => utf16_units a + js_length s'
  end.

(** The names every plain object inherits from [Object.prototype]. *)
Definition Object_prototype_names : list string :=
  ["constructor"; "__defineGetter__"; "__defineSetter__"; "hasOwnProperty";
   "__lookupGetter__"; "__lookupSetter__"; "isPrototypeOf";
   "propertyIsEnumerable"; "toString"; "valueOf"; "__proto__";
   "toLocaleString"].

(** What [cssConfig.github_raw] and [cssConfig.github_pages] read when
    [cssConfig] is a member of [Object.prototype]: nothing. *)
Definition inherited_member : CssConfig :=
  {| github_raw := None; github_pages := None; fallback := None |}.

(** [o[name]] on a plain object: an own property, or else an inherited one. *)
Definition get_property (o : gmap string CssConfig) (name : string)
  : option CssConfig :=
  match o !! name with
  | Some v => Some v
  | None =>
      if bool_decide (name ∈ Object_prototype_names) then Some inherited_member
      else None
  end.

(** Value stored by [this.cache.set(cacheKey, {content, timestamp})]. *)
Record CacheEntry := mkCacheEntry { content : string; timestamp : Z }.

(** The fields assigned by the constructor.  [config] is [this.config] as
    the methods see it ([as_config]): [None] is [null] or any other
    falsy value. *)
Record AssetLoader := mkAssetLoader {
  config : option Config;
  cache : gmap string CacheEntry;
  retryAttempts : Z;
  retryDelay : Z
}.

Definition constructor : AssetLoader :=
  {| config := None; cache := ∅; retryAttempts := 3; retryDelay := 1000 |}.

(** ** The host environment *)

Inductive JsError :=
| Error (message : string)
| TypeError (message : string)
| SyntaxError (message : string).

Definition message_of (e : JsError) : string :=
  match e with Error m | TypeError m | SyntaxError m => m end.

(** What the loader reads of a [Response]: the status, the body text and
    the decoded JSON body ([None] when [response.json()] rejects). *)
Record HttpResponse := mkHttpResponse {
  status : Z;
  text : string;
  json : option JsonValue
}.

(** [response.ok]: the status is in the range 200-299. *)
Definition ok (r : HttpResponse) : bool :=
  (200 <=? status r) && (status r <=? 299).

Inductive FetchOutcome :=
| Rejected (e : JsError)
| Resolved (r : HttpResponse).

(** The console lines of the source, with their interpolated values. *)
Inductive ConsoleMsg :=
| MsgConfigLoaded
| MsgConfigFailed (e : JsError)
| MsgUsingCached (assetName : string)
| MsgTryingFallback
| MsgCssLoaded (assetName : string)
| MsgFetching (attempt maxAttempts : Z) (url : option string)
| MsgHttpStatus (code : Z) (url : option string)
| MsgFetchError (attempt : Z) (message : string)
| MsgUpdateCheckFailed (e : JsError)
| MsgCacheCleared.

Inductive Event :=
| EvFetch (url : option string)
| EvSleep (ms : JsNumber)
| EvConsole (m : ConsoleMsg).

(** The oracle: how the network answers a request, and what [Date.now()]
    reads, after a given history of events. *)
Record Env := mkEnv {
  net : list Event → option string → FetchOutcome;
  clock : list Event → Z
}.

Record World := mkWorld { this : AssetLoader; history : list Event }.

(** ** A state-and-exception monad for the async methods *)

Inductive Outcome (A : Type) :=
| Ok (a : A)
| Throw (e : JsError).
Arguments Ok {A} a.
Arguments Throw {A} e.

Definition M (A : Type) : Type := World → Outcome A * World.

Definition ret {A} (a : A) : M A := λ w, (Ok a, w).

Definition throw {A} (e : JsError) : M A := λ w, (Throw e, w).

Definition bind {A B} (m : M A) (k : A → M B) : M B :=
  λ w, match m w with
       | (Ok a, w') => k a w'
       | (Throw e, w') => (Throw e, w')
       end.

(** [try { m } catch (error) { handler error }] *)
Definition try_catch {A} (m : M A) (handler : JsError → M A) : M A :=
  λ w, match m w with
       | (Ok a, w') => (Ok a, w')
       | (Throw e, w') => handler e w'
       end.

Notation "'let!' x ':=' m 'in' k" := (bind m (λ x, k))
  (at level 10, x name, m at level 100, k at level 200).
Notation "'do!' m 'in' k" := (bind m (λ _, k))
  (at level 10, m at level 100, k at level 200).

Definition emit (e : Event) : M unit :=
  λ w, (Ok tt, {| this := this w; history := history w ++ [e] |}).

Definition console (m : ConsoleMsg) : M unit := emit (EvConsole m).

(** [await new Promise(resolve => setTimeout(resolve, ms))] *)
Definition sleep (ms : JsNumber) : M unit := emit (EvSleep ms).

Definition get_this : M AssetLoader := λ w, (Ok (this w), w).

Definition set_config (c : option Config) : M unit :=
  λ w, (Ok tt, {| this := {| config := c; cache := cache (this w);
                             retryAttempts := retryAttempts (this w);
                             retryDelay := retryDelay (this w) |};
                  history := history w |}).

Definition set_cache (m : gmap string CacheEntry) : M unit :=
  λ w, (Ok tt, {| this := {| config := config (this w); cache := m;
                             retryAttempts := retryAttempts (this w);
                             retryDelay := retryDelay (this w) |};
                  history := history w |}).

Section Loader.

Variable env : Env.

(** [await fetch(url)]: the request is recorded, then the oracle answers. *)
Definition fetch (url : option string) : M HttpResponse :=
  λ w, let w' := {| this := this w; history := history w ++ [EvFetch url] |} in
       match net env (history w) url with
       | Rejected e => (Throw e, w')
       | Resolved r => (Ok r, w')
       end.

(** [await response.json()] *)
Definition response_json (r : HttpResponse) : M JsonValue :=
  match json r with
  | Some v => ret v
  | None => throw (SyntaxError "Unexpected token in JSON")
  end.

Definition date_now : M Z := λ w, (Ok (clock env (history w)), w).

(** ** JavaScript truthiness and [||] on the values that occur *)

Definition truthy_str (s : option string) : bool :=
  match s with
  | Some s => negb (String.eqb s "")
  | None => false
  end.

Definition truthy_num (n : option Z) : bool :=
  match n with
  | Some n => negb (n =? 0)
  | None => false
  end.

Definition or_str (a b : option string) : option string :=
  if truthy_str a then a else b.

Definition or_num (a b : option Z) : option Z :=
  if truthy_num a then a else b.

(** [a < b] with [b] possibly [undefined] (then the comparison is false). *)
Definition lt_num (a : Z) (b : option Z) : bool :=
  match b with
  | Some b => a <? b
  | None => false
  end.

(** ** loadConfig *)

Definition default_config : Config :=
  {| version := Some "1.0.0";
     assets := Some {| css := Some
       {[ "popup" :=
          {| github_raw := Some "https://raw.githubusercontent.com/pokessniper/pokesnipe-assets/main/styles/popup.css";
             github_pages := None;
             fallback := Some "inline" |} ]} |};
     cdn_config := Some {| primary_host := Some "github_raw";
                           cache_duration := Some 300000;
                           retry_attempts := Some 3;
                           retry_delay := Some 1000 |};
     update_check_url := None |}.

(** The value returned is [this.config] itself, whatever was decoded. *)
Definition loadConfig (configUrl : string) : M JsonValue :=
  let! r :=
    try_catch
      (let! response := fetch (Some configUrl) in
       if ok response then
         let! v := response_json response in
         do! set_config (as_config v) in
         do! console MsgConfigLoaded in
         ret (Some v)
       else ret None)
      (λ error, do! console (MsgConfigFailed error) in ret None) in
  match r with
  | Some v => ret v
  | None =>
      do! set_config (Some default_config) in ret (JsonObject default_config)
  end.

(** ** fetchWithRetry *)

(** [attempts || this.config?.cdn_config?.retry_attempts || this.retryAttempts] *)
Definition maxAttempts_of (l : AssetLoader) (attempts : option Z) : Z :=
  default 0
    (or_num (or_num attempts ((config l ≫= cdn_config) ≫= retry_attempts))
            (Some (retryAttempts l))).

(** [this.config?.cdn_config?.retry_delay || this.retryDelay] *)
Definition delay_of (l : AssetLoader) : Z :=
  default 0
    (or_num ((config l ≫= cdn_config) ≫= retry_delay) (Some (retryDelay l))).

(** One iteration of the [try]/[catch] in the loop: [Some body] is the
    [return await response.text()], [None] falls through to the wait. *)
Definition attempt (url : option string) (maxAttempts i : Z) : M (option string) :=
  try_catch
    (do! console (MsgFetching (i + 1) maxAttempts url) in
     let! response := fetch url in
     if ok response then ret (Some (text response))
     else do! console (MsgHttpStatus (status response) url) in ret None)
    (λ error, do! console (MsgFetchError (i + 1) (message_of error)) in ret None).

(** [for (let i = 0; i < maxAttempts; i++) { ... } return null].  The loop
    is bounded by [fuel]; [fetch_loop_fuel] shows that the fuel given by
    [fetchWithRetry] is never exhausted.  The counter [i], [i + 1] and
    the comparisons are exact, as they are on doubles for a counter below
    2^53; the suspension is the product [delay * (i + 1)] as a double. *)
Fixpoint fetch_loop (fuel : nat) (url : option string) (maxAttempts delay i : Z)
  : M (option string) :=
  if i <? maxAttempts then
    match fuel with
    | O => ret None
    | S fuel' =>
        let! r := attempt url maxAttempts i in
        match r with
        | Some body => ret (Some body)
        | None =>
            do! (if i <? maxAttempts - 1 then sleep (js_mul delay (i + 1))
                 else ret tt) in
            fetch_loop fuel' url maxAttempts delay (i + 1)
        end
    end
  else ret None.

Definition fetchWithRetry (url : option string) (attempts : option Z)
  : M (option string) :=
  let! l := get_this in
  let maxAttempts := maxAttempts_of l attempts in
  let delay := delay_of l in
  fetch_loop (Z.to_nat maxAttempts) url maxAttempts delay 0.

(** ** loadCSS *)

Definition err_not_loaded : JsError :=
  Error "Config not loaded. Call loadConfig() first.".

Definition err_not_found (assetName : string) : JsError :=
  Error ("CSS asset '" +:+ assetName +:+ "' not found in config").

Definition err_failed (assetName : string) : JsError :=
  Error ("Failed to load CSS: " +:+ assetName).

Definition err_undefined_property (p : string) : JsError :=
  TypeError ("Cannot read properties of undefined (reading '" +:+ p +:+ "')").

Definition err_null_property (p : string) : JsError :=
  TypeError ("Cannot read properties of null (reading '" +:+ p +:+ "')").

(** [this.config.assets.css[assetName]] *)
Definition read_asset (c : Config) (assetName : string) : M (option CssConfig) :=
  match assets c with
  | None => throw (err_undefined_property "css")
  | Some a =>
      match css a with
      | None => throw (err_undefined_property assetName)
      | Some o => ret (get_property o assetName)
      end
  end.

Definition cacheKey_of (assetName : string) : string := "css_" +:+ assetName.

(** The cache check: [Some content] is the early [return cached.content]. *)
Definition check_cache (c : Config) (assetName : string) : M (option string) :=
  let! l := get_this in
  match cache l !! cacheKey_of assetName with
  | Some cached =>
      let! now := date_now in
      match cdn_config c with
      | None => throw (err_undefined_property "cache_duration")
      | Some cdn =>
          if lt_num (now - timestamp cached) (cache_duration cdn) then
            do! console (MsgUsingCached assetName) in
            ret (Some (content cached))
          else ret None
      end
  | None => ret None
  end.

(** [cssConfig.github_raw || cssConfig.github_pages] *)
Definition primaryUrl_of (cssConfig : CssConfig) : option string :=
  or_str (github_raw cssConfig) (github_pages cssConfig).

(** [cssConfig.github_pages === primaryUrl ? cssConfig.github_raw : cssConfig.github_pages] *)
Definition fallbackUrl_of (cssConfig : CssConfig) (primaryUrl : option string)
  : option string :=
  if decide (github_pages cssConfig = primaryUrl) then github_raw cssConfig
  else github_pages cssConfig.

(** [!cssContent && cssConfig.github_pages && cssConfig.github_raw] *)
Definition wants_fallback (cssContent : option string) (cssConfig : CssConfig) : bool :=
  negb (truthy_str cssContent)
  && truthy_str (github_pages cssConfig)
  && truthy_str (github_raw cssConfig).

(** The tail of [loadCSS]: [if (cssContent) { cache; return } throw]. *)
Definition store_or_fail (assetName : string) (cssContent : option string) : M string :=
  match cssContent with
  | Some body =>
      if truthy_str (Some body) then
        let! now := date_now in
        let! l := get_this in
        do! set_cache (<[cacheKey_of assetName :=
                         {| content := body; timestamp := now |}]> (cache l)) in
        do! console (MsgCssLoaded assetName) in
        ret body
      else throw (err_failed assetName)
  | None => throw (err_failed assetName)
  end.

Definition loadCSS (assetName : string) : M string :=
  let! l := get_this in
  match config l with
  | None => throw err_not_loaded
  | Some c =>
      let! cssConfig := read_asset c assetName in
      match cssConfig with
      | None => throw (err_not_found assetName)
      | Some cssConfig =>
          let! hit := check_cache c assetName in
          match hit with
          | Some cached_content => ret cached_content
          | None =>
              let primaryUrl := primaryUrl_of cssConfig in
              let! cssContent := fetchWithRetry primaryUrl None in
              let! cssContent :=
                (if wants_fallback cssContent cssConfig then
                   let fallbackUrl := fallbackUrl_of cssConfig primaryUrl in
                   do! console MsgTryingFallback in
                   fetchWithRetry fallbackUrl None
                 else ret cssContent) in
              store_or_fail assetName cssContent
          end
      end
  end.

(** ** checkForUpdates and clearCache *)

(** [latestConfig.version] *)
Definition read_version (latestConfig : JsonValue) : M (option string) :=
  match latestConfig with
  | JsonNull => throw (err_null_property "version")
  | JsonPrimitive _ => ret None
  | JsonObject o => ret (version o)
  end.

Definition checkForUpdates : M bool :=
  let! l := get_this in
  match config l with
  | None => ret false
  | Some c =>
      let! r :=
        try_catch
          (let configUrl := update_check_url c in
           if negb (truthy_str configUrl) then ret (Some false)
           else
             let! response := fetch configUrl in
             if ok response then
               let! latestConfig := response_json response in
               let! latestVersion := read_version latestConfig in
               ret (Some (negb (bool_decide (latestVersion = version c))))
             else ret None)
          (λ error, do! console (MsgUpdateCheckFailed error) in ret None) in
      match r with
      | Some b => ret b
      | None => ret false
      end
  end.

Definition clearCache : M unit :=
  do! set_cache ∅ in console MsgCacheCleared.

End Loader.

(** ** The entry of an asset *)

(** The asset entry that line 52 of [loadCSS] reads, when it reads one. *)
Definition lookup_asset (c : Config) (assetName : string) : option CssConfig :=
  (assets c ≫= css) ≫= λ o, get_property o assetName.

(** The errors of line 52 and of the test that follows it: [assets] is
    missing, [assets.css] is missing, or the name is found neither on the
    object nor on [Object.prototype]. *)
Definition lookup_error (c : Config) (assetName : string) (e : JsError) : Prop :=
  (assets c = None ∧ e = err_undefined_property "css")
  ∨ (∃ a, assets c = Some a ∧ css a = None
          ∧ e = err_undefined_property assetName)
  ∨ (∃ a o, assets c = Some a ∧ css a = Some o
            ∧ get_property o assetName = None
            ∧ e = err_not_found assetName).

(** ** Reading a history *)

(** The URLs requested, in order. *)
Fixpoint fetches (evs : list Event) : list (option string) :=
  match evs with
  | [] => []
  | EvFetch u :: evs' => u :: fetches evs'
  | _ :: evs' => fetches evs'
  end.

(** The requests and suspensions, without the console lines. *)
Fixpoint timeline (evs : list Event) : list Event :=
  match evs with
  | [] => []
  | EvConsole _ :: evs' => timeline evs'
  | e :: evs' => e :: timeline evs'
  end.

(** The suspensions requested, in order. *)
Fixpoint sleeps (evs : list Event) : list JsNumber :=
  match evs with
  | [] => []
  | EvSleep ms :: evs' => ms :: sleeps evs'
  | _ :: evs' => sleeps evs'
  end.

(** The answers the oracle gave to the requests of [evs], when [evs]
    happened after the history [h]. *)
Fixpoint fetch_outcomes (env : Env) (h evs : list Event) : list FetchOutcome :=
  match evs with
  | [] => []
  | EvFetch u :: evs' => net env h u :: fetch_outcomes env (h ++ [EvFetch u]) evs'
  | e :: evs' => fetch_outcomes env (h ++ [e]) evs'
  end.

(** A request that did not produce a 2xx response. *)
Definition failed (o : FetchOutcome) : bool :=
  match o with
  | Rejected _ => true
  | Resolved r => negb (ok r)
  end.

(** The linear backoff as the specification words it: [k] requests of
    [url], attempt index starting at [i], with a suspension of
    [delayMs * (i + 1)] (a JavaScript product) after each request but the
    last. *)
Fixpoint backoff_schedule (url : option string) (delayMs i : Z) (k : nat) : list Event :=
  match k with
  | O => []
  | S O => [EvFetch url]
  | S k' => EvFetch url :: EvSleep (js_mul delayMs (i + 1))
            :: backoff_schedule url delayMs (i + 1) k'
  end.

(** The events of one failed iteration of the loop of [fetchWithRetry]. *)
Definition failure_events (url : option string) (n d i : Z) (o : FetchOutcome)
  : list Event :=
  [EvConsole (MsgFetching (i + 1) n url); EvFetch url;
   EvConsole (match o with
              | Rejected e => MsgFetchError (i + 1) (message_of e)
              | Resolved r => MsgHttpStatus (status r) url
              end)]
  ++ (if i <? n - 1 then [EvSleep (js_mul d (i + 1))] else []).

(** The runs of the retry loop from index [i], after history [h]: the
    events they add and the value they return. *)
Inductive Attempts (env : Env) (url : option string) (n d : Z)
  : Z → list Event → list Event → option string → Prop :=
| Attempts_exhausted i h :
    ¬ i < n →
    Attempts env url n d i h [] None
| Attempts_success i h r :
    i < n →
    net env (h ++ [EvConsole (MsgFetching (i + 1) n url)]) url = Resolved r →
    ok r = true →
    Attempts env url n d i h
      [EvConsole (MsgFetching (i + 1) n url); EvFetch url] (Some (text r))
| Attempts_failure i h o evs res :
    i < n →
    net env (h ++ [EvConsole (MsgFetching (i + 1) n url)]) url = o →
    failed o = true →
    Attempts env url n d (i + 1) (h ++ failure_events url n d i o) evs res →
    Attempts env url n d i h (failure_events url n d i o ++ evs) res.

(** ** Worlds reached by [loadCSS] *)

(** The world after [this.cache.set(cacheKey, {content, timestamp: Date.now()})]
    and the console line that follows it. *)
Definition world_after_store (env : Env) (assetName body : string) (w : World)
  : World :=
  {| this := {| config := config (this w);
                cache := <[cacheKey_of assetName :=
                           {| content := body; timestamp := clock env (history w) |}]>
                         (cache (this w));
                retryAttempts := retryAttempts (this w);
                retryDelay := retryDelay (this w) |};
     history := history w ++ [EvConsole (MsgCssLoaded assetName)] |}.

(** The world in which the fallback URL is fetched. *)
Definition world_at_fallback (w : World) : World :=
  {| this := this w; history := history w ++ [EvConsole MsgTryingFallback] |}.

(** ** Concrete environments and worlds *)

Definition response_404 : HttpResponse :=
  {| status := 404; text := "Not Found"; json := None |}.

Definition response_css (body : string) : HttpResponse :=
  {| status := 200; text := body; json := None |}.

(** Every request is answered 404; the clock reads the number of events. *)
Definition env_down : Env :=
  {| net := λ _ _, Resolved response_404;
     clock := λ h, Z.of_nat (length h) |}.

(** Only [good] is answered, with a 200 carrying [body]. *)
Definition env_only (good body : string) : Env :=
  {| net := λ _ u, if decide (u = Some good) then Resolved (response_css body)
                   else Resolved response_404;
     clock := λ h, Z.of_nat (length h) |}.

Definition config_with (sources : CssConfig) (attempts : option Z) : Config :=
  {| version := Some "1.0.0";
     assets := Some {| css := Some {[ "popup" := sources ]} |};
     cdn_config := Some {| primary_host := Some "github_raw";
                           cache_duration := Some 100;
                           retry_attempts := attempts;
                           retry_delay := Some 1000 |};
     update_check_url := None |}.

Definition world_with (c : Config) (entries : gmap string CacheEntry) : World :=
  {| this := {| config := Some c; cache := entries;
                retryAttempts := 3; retryDelay := 1000 |};
     history := [] |}.

Definition two_sources (raw pages : string) : CssConfig :=
  {| github_raw := Some raw; github_pages := Some pages; fallback := None |}.

(** A loader with two sources for [popup] and an empty cache. *)
Definition world_two_sources : World :=
  world_with (config_with (two_sources "p" "s") None) ∅.

(** A loader whose cache holds an entry for [popup] stamped at -1000. *)
Definition world_stale : World :=
  world_with (config_with (two_sources "p" "s") None)
    {[ "css_popup" := {| content := "old"; timestamp := -1000 |} ]}.

(** Every request is answered 200: with the body "old" as long as no
    request was made before, with "new" afterwards.  The clock starts at
    1000 and advances by 60 with every event. *)
Definition env_ticking : Env :=
  {| net := λ h _, Resolved (response_css (match fetches h with
                                           | [] => "old"
                                           | _ => "new"
                                           end));
     clock := λ h, 1000 + 60 * Z.of_nat (length h) |}.

(** A loader (cache duration 100) holding an entry stamped at 910. *)
Definition world_aging : World :=
  world_with (config_with (two_sources "p" "s") None)
    {[ "css_popup" := {| content := "old"; timestamp := 910 |} ]}.

(** A loader holding an expired entry, configured with [retry_attempts] -1. *)
Definition world_stale_no_attempts : World :=
  world_with (config_with (two_sources "p" "s") (Some (-1)))
    {[ "css_popup" := {| content := "old"; timestamp := -1000 |} ]}.


(** The configuration request is answered 200 with a body that decodes
    to [v]; every other request is answered 200 with the body "css". *)
Definition env_config (v : JsonValue) : Env :=
  {| net := λ _ u, if decide (u = Some "cfg")
                   then Resolved {| status := 200; text := "";
                                    json := Some v |}
                   else Resolved (response_css "css");
     clock := λ h, Z.of_nat (length h) |}.

(** ** The worlds a program can reach *)

(** From a freshly constructed loader, by calling the methods. *)
Inductive Reachable (env : Env) : World → Prop :=
| Reachable_new :
    Reachable env {| this := constructor; history := [] |}
| Reachable_loadConfig w configUrl :
    Reachable env w → Reachable env (snd (loadConfig env configUrl w))
| Reachable_loadCSS w assetName :
    Reachable env w → Reachable env (snd (loadCSS env assetName w))
| Reachable_fetchWithRetry w url attempts :
    Reachable env w → Reachable env (snd (fetchWithRetry env url attempts w))
| Reachable_checkForUpdates w :
    Reachable env w → Reachable env (snd (checkForUpdates env w))
| Reachable_clearCache w :
    Reachable env w → Reachable env (snd (clearCache w)).

(** ** getCacheInfo *)

(** One element of the array built by [getCacheInfo]. *)
Record CacheInfo := mkCacheInfo {
  info_key : string;
  info_size : nat;
  info_age : Z
}.

(** The callback of [.map(([key, value]) => ({key, size, age}))], run over
    the entries; [Date.now()] is read once per entry. *)
Fixpoint cache_infos (env : Env) (entries : list (string * CacheEntry))
  : M (list CacheInfo) :=
  match entries with
  | [] => ret []
  | (key, value) :: rest =>
      let! now := date_now env in
      let! infos := cache_infos env rest in
      ret ({| info_key := key;
              info_size := js_length (content value);
              info_age := now - timestamp value |} :: infos)
  end.

(** [Array.from(this.cache.entries()).map(...)].  The cache model keeps
    no insertion order: the entries come in the order of [map_to_list],
    and nothing below depends on it.  [content.length] counts UTF-16
    code units. *)
Definition getCacheInfo (env : Env) : M (list CacheInfo) :=
  let! l := get_this in
  cache_infos env (map_to_list (cache l)).

(** ** Sequences of method calls *)

(** One call of a method of the loader. *)
Inductive Call (env : Env) : World → World → Prop :=
| Call_loadConfig w configUrl :
    Call env w (snd (loadConfig env configUrl w))
| Call_loadCSS w assetName :
    Call env w (snd (loadCSS env assetName w))
| Call_fetchWithRetry w url attempts :
    Call env w (snd (fetchWithRetry env url attempts w))
| Call_checkForUpdates w :
    Call env w (snd (checkForUpdates env w))
| Call_clearCache w :
    Call env w (snd (clearCache w))
| Call_getCacheInfo w :
    Call env w (snd (getCacheInfo env w)).

(** One call of a method other than [loadConfig]. *)
Inductive Use (env : Env) : World → World → Prop :=
| Use_loadCSS w assetName :
    Use env w (snd (loadCSS env assetName w))
| Use_fetchWithRetry w url attempts :
    Use env w (snd (fetchWithRetry env url attempts w))
| Use_checkForUpdates w :
    Use env w (snd (checkForUpdates env w))
| Use_clearCache w :
    Use env w (snd (clearCache w))
| Use_getCacheInfo w :
    Use env w (snd (getCacheInfo env w)).

(** What every cache entry of a running loader looks like: a key made by
    [loadCSS], a non-empty content, and a timestamp read from the clock at
    some earlier point of the history. *)
Definition cache_wellformed (env : Env) (w : World) : Prop :=
  ∀ key entry,
    cache (this w) !! key = Some entry →
    content entry ≠ ""
    ∧ (∃ assetName, key = cacheKey_of assetName)
    ∧ ∃ h tl, history w = h ++ tl ∧ timestamp entry = clock env h.

(** A freshly constructed loader. *)
Definition world_new : World := {| this := constructor; history := [] |}.


(** ** More concrete configurations *)

(** A configuration object without [cdn_config]. *)
Definition config_no_cdn : Config :=
  {| version := Some "1.0.0";
     assets := Some {| css := Some {[ "popup" := two_sources "p" "s" ]} |};
     cdn_config := None;
     update_check_url := None |}.

(** A configuration whose [cdn_config] has no [cache_duration]. *)
Definition config_no_duration : Config :=
  {| version := Some "1.0.0";
     assets := Some {| css := Some {[ "popup" := two_sources "p" "s" ]} |};
     cdn_config := Some {| primary_host := None; cache_duration := None;
                           retry_attempts := Some 2; retry_delay := Some 500 |};
     update_check_url := None |}.

(** Loaders with these configurations. *)
Definition world_no_cdn : World := world_with config_no_cdn ∅.

Definition world_no_duration : World :=
  world_with config_no_duration
    {[ "css_popup" := {| content := "old"; timestamp := 0 |} ]}.

(** An asset entry with no URL at all. *)
Definition no_sources : CssConfig :=
  {| github_raw := None; github_pages := None; fallback := Some "inline" |}.

(** An asset entry with [github_pages] only. *)
Definition pages_only (pages : string) : CssConfig :=
  {| github_raw := None; github_pages := Some pages; fallback := None |}.

(** Every request is answered 200 with the body "css"; the clock reads
    the number of events. *)
Definition env_up : Env :=
  {| net := λ _ _, Resolved (response_css "css");
     clock := λ h, Z.of_nat (length h) |}.

(** ** The document: applyCSS and loadCSSLink *)

(** An element of the page, with the attributes the loader uses; an
    unset attribute is the empty string. *)
#[warnings="-register-all"]
Inductive Node :=
| mkNode (tagName elt_id rel href textContent : string) (childNodes : list Node).

Definition id_of (n : Node) : string :=
  match n with mkNode _ i _ _ _ _ => i end.

Definition textContent_of (n : Node) : string :=
  match n with mkNode _ _ _ _ x _ => x end.

(** The children of [document.head] and of [document.body], in order;
    the [html], [head] and [body] elements themselves carry no id. *)
Record Document := mkDocument {
  head_children : list Node;
  body_children : list Node
}.

(** The number of elements with id [i] in a subtree. *)
Fixpoint count_node (i : string) (n : Node) : nat :=
  match n with
  | mkNode _ j _ _ _ cs =>
      (if String.eqb j i then 1 else 0)%nat + sum_list (map (count_node i) cs)
  end.

Definition count_forest (i : string) (l : list Node) : nat :=
  sum_list (map (count_node i) l).

Definition count_document (i : string) (d : Document) : nat :=
  (count_forest i (head_children d) + count_forest i (body_children d))%nat.

(** The first element with id [i], in tree order. *)
Fixpoint find_node (i : string) (n : Node) : option Node :=
  match n with
  | mkNode _ j _ _ _ cs =>
      if String.eqb j i then Some n
      else (fix find_in (l : list Node) : option Node :=
              match l with
              | [] => None
              | c :: l' =>
                  match find_node i c with
                  | Some x => Some x
                  | None => find_in l'
                  end
              end) cs
  end.

Fixpoint find_forest (i : string) (l : list Node) : option Node :=
  match l with
  | [] => None
  | c :: l' =>
      match find_node i c with
      | Some x => Some x
      | None => find_forest i l'
      end
  end.

(** [document.getElementById(elementId)]: an empty id matches nothing. *)
Definition getElementById (elementId : string) (d : Document) : option Node :=
  if String.eqb elementId "" then None
  else find_forest elementId (head_children d ++ body_children d).

(** The subtree [n] without the first element, in tree order, that has
    id [i] below its root. *)
Fixpoint remove_below (i : string) (n : Node) : Node :=
  match n with
  | mkNode t j r h x cs =>
      mkNode t j r h x
        ((fix remove_in (l : list Node) : list Node :=
            match l with
            | [] => []
            | c :: l' =>
                if String.eqb (id_of c) i then l'
                else match find_node i c with
                     | Some _ => remove_below i c :: l'
                     | None => c :: remove_in l'
                     end
            end) cs)
  end.

Fixpoint remove_forest (i : string) (l : list Node) : list Node :=
  match l with
  | [] => []
  | c :: l' =>
      if String.eqb (id_of c) i then l'
      else match find_node i c with
           | Some _ => remove_below i c :: l'
           | None => c :: remove_forest i l'
           end
  end.

(** [existing.remove()] for the element that [getElementById(i)] found. *)
Definition remove_element (i : string) (d : Document) : Document :=
  match find_forest i (head_children d) with
  | Some _ => {| head_children := remove_forest i (head_children d);
                 body_children := body_children d |}
  | None => {| head_children := head_children d;
               body_children := remove_forest i (body_children d) |}
  end.

(** [document.createElement(tag)] *)
Definition createElement (tag : string) : Node := mkNode tag "" "" "" "" [].

Definition set_id (n : Node) (i : string) : Node :=
  match n with mkNode t _ r h x cs => mkNode t i r h x cs end.

Definition set_rel (n : Node) (r : string) : Node :=
  match n with mkNode t i _ h x cs => mkNode t i r h x cs end.

Definition set_href (n : Node) (h : string) : Node :=
  match n with mkNode t i r _ x cs => mkNode t i r h x cs end.

(** Assigning [textContent] replaces the children by the text. *)
Definition set_textContent (n : Node) (x : string) : Node :=
  match n with mkNode t i r h _ _ => mkNode t i r h x [] end.

(** [document.head.appendChild(n)] for a node that is not in the tree. *)
Definition appendChild_head (d : Document) (n : Node) : Document :=
  {| head_children := head_children d ++ [n];
     body_children := body_children d |}.

(** The console lines of the two DOM helpers. *)
Inductive DomLog :=
| LogCssApplied (styleId : string)
| LogCssLinkLoaded (url : string)
| ErrCssLinkFailed (url : string).

(** [applyCSS(cssContent, styleId = 'external-styles')]; [None] is an
    omitted argument. *)
Definition applyCSS (cssContent : string) (styleId : option string) (d : Document)
  : Document * list DomLog :=
  let styleId := default "external-styles" styleId in
  let existingStyle := getElementById styleId d in
  let d := match existingStyle with
           | Some _ => remove_element styleId d
           | None => d
           end in
  let styleElement := createElement "style" in
  let styleElement := set_id styleElement styleId in
  let styleElement := set_textContent styleElement cssContent in
  let d := appendChild_head d styleElement in
  (d, [LogCssApplied styleId]).

(** What the browser does with a stylesheet link once it is in the
    document: it fires [load], fires [error], or fires neither. *)
Inductive LinkEvent := LinkLoad | LinkError | LinkSilent.

(** [loadCSSLink(url, linkId = 'external-css-link')]: the document after
    the executor has run, the console lines, and how the promise settles
    ([None]: it stays pending). *)
Definition loadCSSLink (browser : string → LinkEvent) (url : string)
    (linkId : option string) (d : Document)
  : option (Outcome unit) * Document * list DomLog :=
  let linkId := default "external-css-link" linkId in
  let existingLink := getElementById linkId d in
  let d := match existingLink with
           | Some _ => remove_element linkId d
           | None => d
           end in
  let link := createElement "link" in
  let link := set_id link linkId in
  let link := set_rel link "stylesheet" in
  let link := set_href link url in
  let d := appendChild_head d link in
  match browser url with
  | LinkLoad => (Some (Ok tt), d, [LogCssLinkLoaded url])
  | LinkError =>
      (Some (Throw (Error ("Failed to load CSS from " +:+ url))), d,
       [ErrCssLinkFailed url])
  | LinkSilent => (None, d, [])
  end.

(** What both helpers do to the document: drop the element that
    [getElementById(i)] finds, if any, and append [n] to the head. *)
Definition replace_by_id (i : string) (n : Node) (d : Document) : Document :=
  appendChild_head
    (match getElementById i d with
     | Some _ => remove_element i d
     | None => d
     end) n.

(** A page whose head holds a title and an earlier external style. *)
Definition page_with_style : Document :=
  {| head_children := [mkNode "title" "" "" "" "PokeSnipe" [];
                       mkNode "style" "external-styles" "" "" "old{}" []];
     body_children := [mkNode "div" "app" "" "" "" []] |}.

(** ** Tactics *)

Ltac splits := repeat match goal with |- _ ∧ _ => split end.

Ltac mrun :=
  unfold loadConfig, checkForUpdates, clearCache, check_cache, store_or_fail,
    attempt, response_json, read_version, read_asset, fetch, date_now, console,
    sleep, emit, get_this, set_config, set_cache, try_catch, bind, ret, throw;
  simpl.

(** ** Products as doubles *)




(** ** The retry loop *)

Section RetryLoop.

Variable env : Env.
Variable url : option string.
Variables n d : Z.

Lemma attempt_run i w :
  attempt env url n i w =
    let h := history w ++ [EvConsole (MsgFetching (i + 1) n url)] in
    match net env h url with
    | Resolved r =>
        if ok r
        then (Ok (Some (text r)),
              {| this := this w; history := h ++ [EvFetch url] |})
        else (Ok None,
              {| this := this w;
                 history := (h ++ [EvFetch url])
                            ++ [EvConsole (MsgHttpStatus (status r) url)] |})
    | Rejected e =>
        (Ok None,
         {| this := this w;
            history := (h ++ [EvFetch url])
                       ++ [EvConsole (MsgFetchError (i + 1) (message_of e))] |})
    end.
Proof.
  mrun. destruct (net env _ url) as [e|r]; simpl; [reflexivity|].
  destruct (ok r); reflexivity.
Qed.

Lemma fetch_loop_exhausted fuel i w :
  ¬ i < n → fetch_loop env fuel url n d i w = (Ok None, w).
Proof.
  intros Hge. destruct fuel; simpl;
    (destruct (Z.ltb_spec i n); [lia | reflexivity]).
Qed.

Lemma fetch_loop_success fuel i w r :
  i < n →
  net env (history w ++ [EvConsole (MsgFetching (i + 1) n url)]) url = Resolved r →
  ok r = true →
  fetch_loop env (S fuel) url n d i w
  = (Ok (Some (text r)),
     {| this := this w;
        history := history w
                   ++ [EvConsole (MsgFetching (i + 1) n url); EvFetch url] |}).
Proof.
  intros Hlt Hnet Hok. simpl.
  destruct (Z.ltb_spec i n); [|lia].
  unfold bind at 1. rewrite attempt_run. cbv zeta. rewrite Hnet, Hok.
  unfold ret. rewrite <- app_assoc. reflexivity.
Qed.

Lemma fetch_loop_failure fuel i w o :
  i < n →
  net env (history w ++ [EvConsole (MsgFetching (i + 1) n url)]) url = o →
  failed o = true →
  fetch_loop env (S fuel) url n d i w
  = fetch_loop env fuel url n d (i + 1)
      {| this := this w; history := history w ++ failure_events url n d i o |}.
Proof.
  intros Hlt Hnet Hf. simpl.
  destruct (Z.ltb_spec i n); [|lia].
  unfold bind at 1. rewrite attempt_run. cbv zeta. rewrite Hnet.
  unfold failure_events.
  destruct o as [e|r]; simpl in Hf.
  - destruct (i <? n - 1); unfold bind, sleep, emit, ret; cbn [this history].
    all: f_equal; f_equal; rewrite <- ?app_assoc; simpl; rewrite ?app_nil_r; reflexivity.
  - apply negb_true_iff in Hf. rewrite Hf.
    destruct (i <? n - 1); unfold bind, sleep, emit, ret, console, emit; cbn [this history].
    all: f_equal; f_equal; rewrite <- ?app_assoc; simpl; rewrite ?app_nil_r; reflexivity.
Qed.

(** The loop never throws, leaves [this] alone, and its events and result
    form a run of [Attempts]. *)
Lemma fetch_loop_Attempts fuel :
  ∀ i w, (Z.to_nat (n - i) ≤ fuel)%nat →
  ∃ res evs w',
    fetch_loop env fuel url n d i w = (Ok res, w')
    ∧ this w' = this w
    ∧ history w' = history w ++ evs
    ∧ Attempts env url n d i (history w) evs res.
Proof.
  induction fuel as [|fuel IH]; intros i w Hfuel.
  - exists None, [], w. rewrite app_nil_r.
    assert (¬ i < n) by lia.
    split; [apply fetch_loop_exhausted; assumption|].
    repeat split. constructor. assumption.
  - destruct (Z.lt_ge_cases i n) as [Hlt|Hge].
    + destruct (net env (history w ++ [EvConsole (MsgFetching (i + 1) n url)]) url)
        as [e|r] eqn:Hnet.
      * pose proof (fetch_loop_failure fuel i w _ Hlt Hnet eq_refl) as Hstep.
        destruct (IH (i + 1) {| this := this w;
                 history := history w ++ failure_events url n d i (Rejected e) |})
          as (res & evs & w' & Hrun & Hthis & Hhist & Hatt); [lia|].
        exists res, (failure_events url n d i (Rejected e) ++ evs), w'.
        rewrite Hstep. split; [exact Hrun|]. split; [exact Hthis|].
        split; [rewrite Hhist; cbn [history]; symmetry; apply app_assoc|].
        eapply Attempts_failure; eauto.
      * destruct (ok r) eqn:Hok.
        -- eexists _, _, _.
           split; [apply fetch_loop_success; eassumption|].
           split; [reflexivity|]. split; [reflexivity|].
           apply Attempts_success; assumption.
        -- assert (Hf : failed (Resolved r) = true) by (simpl; rewrite Hok; reflexivity).
           pose proof (fetch_loop_failure fuel i w _ Hlt Hnet Hf) as Hstep.
           destruct (IH (i + 1) {| this := this w;
                    history := history w ++ failure_events url n d i (Resolved r) |})
             as (res & evs & w' & Hrun & Hthis & Hhist & Hatt); [lia|].
           exists res, (failure_events url n d i (Resolved r) ++ evs), w'.
           rewrite Hstep. split; [exact Hrun|]. split; [exact Hthis|].
           split; [rewrite Hhist; cbn [history]; symmetry; apply app_assoc|].
           eapply Attempts_failure; eauto.
    + exists None, [], w. rewrite app_nil_r.
      assert (¬ i < n) by lia.
      split; [apply fetch_loop_exhausted; assumption|].
      repeat split. constructor. assumption.
Qed.

End RetryLoop.

(** ** Facts about histories *)

Lemma fetches_app a b : fetches (a ++ b) = fetches a ++ fetches b.
Proof.
  induction a as [|[u|ms|m] a IH]; simpl; rewrite ?IH; reflexivity.
Qed.

Lemma timeline_app a b : timeline (a ++ b) = timeline a ++ timeline b.
Proof.
  induction a as [|[u|ms|m] a IH]; simpl; rewrite ?IH; reflexivity.
Qed.


Lemma fetches_timeline evs : fetches (timeline evs) = fetches evs.
Proof.
  induction evs as [|[u|ms|m] evs IH]; simpl; rewrite ?IH; reflexivity.
Qed.


Lemma fetch_outcomes_app env a :
  ∀ h b, fetch_outcomes env h (a ++ b)
         = fetch_outcomes env h a ++ fetch_outcomes env (h ++ a) b.
Proof.
  induction a as [|e a IH]; intros h b; simpl.
  - rewrite app_nil_r. reflexivity.
  - replace (h ++ e :: a) with ((h ++ [e]) ++ a)
      by (rewrite <- app_assoc; reflexivity).
    destruct e; simpl; rewrite IH; reflexivity.
Qed.

Lemma fetch_outcomes_length env evs :
  ∀ h, length (fetch_outcomes env h evs) = length (fetches evs).
Proof.
  induction evs as [|[u|ms|m] evs IH]; intros h; simpl; rewrite ?IH; reflexivity.
Qed.

Lemma backoff_schedule_SS url d i k :
  backoff_schedule url d i (S (S k))
  = EvFetch url :: EvSleep (js_mul d (i + 1))
      :: backoff_schedule url d (i + 1) (S k).
Proof. reflexivity. Qed.

Lemma fetches_backoff_schedule url d k :
  ∀ i, fetches (backoff_schedule url d i k) = replicate k url.
Proof.
  induction k as [|k IH]; intros i; [reflexivity|].
  destruct k as [|k]; [reflexivity|].
  rewrite backoff_schedule_SS. cbn [fetches]. rewrite IH. reflexivity.
Qed.




(** ** Facts about the runs of the retry loop *)

Section AttemptsFacts.

Variable env : Env.
Variable url : option string.
Variables n d : Z.

Lemma timeline_failure_events i o :
  timeline (failure_events url n d i o)
  = EvFetch url :: (if i <? n - 1 then [EvSleep (js_mul d (i + 1))] else []).
Proof. unfold failure_events. destruct (i <? n - 1); reflexivity. Qed.

Lemma fetch_outcomes_failure_events i h o :
  net env (h ++ [EvConsole (MsgFetching (i + 1) n url)]) url = o →
  fetch_outcomes env h (failure_events url n d i o) = [o].
Proof.
  intros Ho. unfold failure_events.
  destruct (i <? n - 1); simpl; rewrite Ho; reflexivity.
Qed.

(** The requests and suspensions of a run follow the linear backoff: [k]
    requests, all [n - i] of them unless one succeeds. *)
Lemma Attempts_schedule i h evs res :
  Attempts env url n d i h evs res →
  ∃ k : nat,
    (k ≤ Z.to_nat (n - i))%nat
    ∧ timeline evs = backoff_schedule url d i k
    ∧ (i < n → (1 ≤ k)%nat)
    ∧ (res = None → k = Z.to_nat (n - i)).
Proof.
  induction 1 as [i h Hge | i h r Hlt Hnet Hok
                 | i h o evs res Hlt Hnet Hf Hrest IH].
  - exists O. splits; try lia. reflexivity.
  - exists 1%nat. splits; try lia; [reflexivity | discriminate].
  - destruct IH as (k & Hk & Htl & Hpos & Hnone).
    exists (S k). rewrite timeline_app, timeline_failure_events, Htl.
    split; [lia|]. split; [|split; [lia|intros E; rewrite (Hnone E); lia]].
    destruct (Z.ltb_spec i (n - 1)) as [Hlast|Hlast].
    + destruct k as [|k]; [specialize (Hpos ltac:(lia)); lia|]. reflexivity.
    + assert (k = O) by lia. subst k. reflexivity.
Qed.

(** What the oracle answered during a run: failures only, then the 2xx
    response whose text is returned, right after which the run ends. *)
Lemma Attempts_outcomes i h evs res :
  Attempts env url n d i h evs res →
  match res with
  | Some body =>
      ∃ fails r,
        fetch_outcomes env h evs = fails ++ [Resolved r]
        ∧ Forall (λ o, failed o = true) fails
        ∧ ok r = true ∧ body = text r
        ∧ last evs = Some (EvFetch url)
  | None =>
      Forall (λ o, failed o = true) (fetch_outcomes env h evs)
      ∧ length (fetches evs) = Z.to_nat (n - i)
  end.
Proof.
  induction 1 as [i h Hge | i h r Hlt Hnet Hok
                 | i h o evs res Hlt Hnet Hf Hrest IH].
  - split; [constructor | simpl; lia].
  - exists [], r. simpl. rewrite Hnet. splits; auto.
  - rewrite fetch_outcomes_app, (fetch_outcomes_failure_events _ _ _ Hnet).
    destruct res as [body|].
    + destruct IH as (fails & r & Hout & Hall & Hok & Hbody & Hlast).
      exists (o :: fails), r. rewrite Hout. splits; auto.
      rewrite last_app, Hlast. reflexivity.
    + destruct IH as [Hall Hlen]. split; [constructor; assumption|].
      rewrite fetches_app, length_app, Hlen, <- (fetches_timeline (failure_events _ _ _ _ _)),
        timeline_failure_events.
      destruct (i <? n - 1); simpl; lia.
Qed.

(** A run only prints the three console lines of [fetchWithRetry]. *)
Lemma Attempts_console i h evs res :
  Attempts env url n d i h evs res →
  ∀ m, In (EvConsole m) evs →
       match m with
       | MsgFetching _ _ _ | MsgHttpStatus _ _ | MsgFetchError _ _ => True
       | _ => False
       end.
Proof.
  induction 1 as [i h Hge | i h r Hlt Hnet Hok
                 | i h o evs res Hlt Hnet Hf Hrest IH]; intros m Hin.
  - destruct Hin.
  - simpl in Hin. destruct Hin as [E|[E|[]]]; [|discriminate].
    injection E as <-. exact I.
  - apply in_app_or in Hin. destruct Hin as [Hin|Hin]; [|apply IH; assumption].
    unfold failure_events in Hin. apply in_app_or in Hin.
    destruct Hin as [Hin|Hin].
    + simpl in Hin. destruct Hin as [E|[E|[E|[]]]]; try discriminate.
      * injection E as <-. exact I.
      * injection E as <-. destruct o; exact I.
    + destruct (i <? n - 1); simpl in Hin; [destruct Hin as [E|[]]; discriminate|destruct Hin].
Qed.

(** Against a URL that never answers 2xx, the run returns [null]. *)
Lemma Attempts_all_fail i h evs res :
  (∀ h', failed (net env h' url) = true) →
  Attempts env url n d i h evs res → res = None.
Proof.
  intros Hfail. induction 1 as [i h Hge | i h r Hlt Hnet Hok
                               | i h o evs res Hlt Hnet Hf Hrest IH]; auto.
  specialize (Hfail (h ++ [EvConsole (MsgFetching (i + 1) n url)])).
  rewrite Hnet in Hfail. simpl in Hfail. rewrite Hok in Hfail. discriminate.
Qed.

(** Against a URL that always answers the 2xx response [r], a run with an
    attempt left makes one request and returns [r]'s text. *)
Lemma Attempts_first_success i h evs res r :
  (∀ h', net env h' url = Resolved r) → ok r = true → i < n →
  Attempts env url n d i h evs res →
  res = Some (text r)
  ∧ evs = [EvConsole (MsgFetching (i + 1) n url); EvFetch url].
Proof.
  intros Hnet Hok Hlt Hrun. inversion Hrun; subst.
  - lia.
  - match goal with H : net env _ url = Resolved _ |- _ =>
      rewrite Hnet in H; injection H as <- end.
    split; reflexivity.
  - match goal with H : failed _ = true |- _ =>
      rewrite Hnet in H; simpl in H; rewrite Hok in H; discriminate end.
Qed.

End AttemptsFacts.

(** ** fetchWithRetry *)

Section FetchWithRetry.

Variable env : Env.

(** More fuel than the iterations left changes nothing: the bound of
    [fetch_loop] is never the reason the loop stops. *)
Lemma fetch_loop_fuel url n d fuel :
  ∀ fuel' i w,
    (Z.to_nat (n - i) ≤ fuel)%nat → (Z.to_nat (n - i) ≤ fuel')%nat →
    fetch_loop env fuel url n d i w = fetch_loop env fuel' url n d i w.
Proof.
  induction fuel as [|fuel IH]; intros fuel' i w H1 H2.
  - rewrite !fetch_loop_exhausted by lia. reflexivity.
  - destruct (Z.lt_ge_cases i n) as [Hlt|Hge];
      [|rewrite !fetch_loop_exhausted by lia; reflexivity].
    destruct fuel' as [|fuel']; [lia|].
    destruct (net env (history w ++ [EvConsole (MsgFetching (i + 1) n url)]) url)
      as [e|r] eqn:Hnet.
    + rewrite !(fetch_loop_failure _ _ _ _ _ _ _ _ Hlt Hnet eq_refl).
      apply IH; lia.
    + destruct (ok r) eqn:Hok.
      * rewrite !(fetch_loop_success _ _ _ _ _ _ _ _ Hlt Hnet Hok). reflexivity.
      * assert (Hf : failed (Resolved r) = true) by (simpl; rewrite Hok; reflexivity).
        rewrite !(fetch_loop_failure _ _ _ _ _ _ _ _ Hlt Hnet Hf).
        apply IH; lia.
Qed.

(** [fetchWithRetry] always returns, leaves [this] alone, and what it adds
    to the history is a run of the retry loop from index 0. *)
Lemma fetchWithRetry_run url attempts w :
  ∃ res evs w',
    fetchWithRetry env url attempts w = (Ok res, w')
    ∧ this w' = this w
    ∧ history w' = history w ++ evs
    ∧ Attempts env url (maxAttempts_of (this w) attempts) (delay_of (this w))
        0 (history w) evs res.
Proof.
  unfold fetchWithRetry, bind, get_this.
  apply fetch_loop_Attempts. lia.
Qed.

End FetchWithRetry.

(** ** Retry, backoff and error absorption *)

Example backoff_three_attempts :
  let '(res, w) := fetchWithRetry env_down (Some "u") None
                     (world_with default_config ∅) in
  res = Ok None
  ∧ timeline (history w)
    = [EvFetch (Some "u"); EvSleep (Num 1000); EvFetch (Some "u");
       EvSleep (Num 2000); EvFetch (Some "u")].
Proof. vm_compute. split; reflexivity. Qed.

(** Products that leave the range of doubles are [Infinity]. *)
Example js_mul_overflow :
  js_mul (2 ^ 1023) 2 = Infinity ∧ js_mul (- 2 ^ 1023) 2 = NegInfinity.
Proof. vm_compute. split; reflexivity. Qed.




(** C7: [fetchWithRetry] never throws.  It returns a body exactly when a
    request was answered 2xx: every earlier request failed, the body is
    that response's text, and the request is the last event of the call.
    Otherwise every request failed, all [maxAttempts] of them were made,
    and the result is [null]. *)
Theorem fetchWithRetry_absorbs_failures (env : Env) (url : option string)
    (attempts : option Z) (w : World) :
  ∃ res evs w',
    fetchWithRetry env url attempts w = (Ok res, w')
    ∧ history w' = history w ++ evs
    ∧ match res with
      | Some body =>
          ∃ fails r,
            fetch_outcomes env (history w) evs = fails ++ [Resolved r]
            ∧ Forall (λ o, failed o = true) fails
            ∧ ok r = true ∧ body = text r
            ∧ last evs = Some (EvFetch url)
      | None =>
          Forall (λ o, failed o = true) (fetch_outcomes env (history w) evs)
          ∧ length (fetches evs) = Z.to_nat (maxAttempts_of (this w) attempts)
      end.
Proof.
  destruct (fetchWithRetry_run env url attempts w)
    as (res & evs & w' & Hrun & _ & Hhist & Hatt).
  exists res, evs, w'. splits; auto.
  pose proof (Attempts_outcomes _ _ _ _ _ _ _ _ Hatt) as H.
  rewrite Z.sub_0_r in H. exact H.
Qed.

(** The requests of one call of [fetchWithRetry]: [k] requests of [url],
    at least one when the effective attempt count is positive, none when
    it is not, and all of them when the result is [null]. *)
Lemma fetchWithRetry_requests (env : Env) (url : option string)
    (attempts : option Z) (w : World) :
  ∃ res evs w' (k : nat),
    fetchWithRetry env url attempts w = (Ok res, w')
    ∧ this w' = this w
    ∧ history w' = history w ++ evs
    ∧ fetches evs = replicate k url
    ∧ (k ≤ Z.to_nat (maxAttempts_of (this w) attempts))%nat
    ∧ (0 < maxAttempts_of (this w) attempts → (1 ≤ k)%nat)
    ∧ (res = None → k = Z.to_nat (maxAttempts_of (this w) attempts))
    ∧ (is_Some res → (1 ≤ k)%nat)
    ∧ (∀ m, In (EvConsole m) evs → m ≠ MsgTryingFallback).
Proof.
  destruct (fetchWithRetry_run env url attempts w)
    as (res & evs & w' & Hrun & Hthis & Hhist & Hatt).
  destruct (Attempts_schedule _ _ _ _ _ _ _ _ Hatt) as (k & Hk & Htl & Hpos & Hnone).
  rewrite Z.sub_0_r in Hk, Hnone.
  assert (Hf : fetches evs = replicate k url).
  { rewrite <- fetches_timeline, Htl. apply fetches_backoff_schedule. }
  exists res, evs, w', k. splits; auto.
  - intros [body ->].
    pose proof (Attempts_outcomes _ _ _ _ _ _ _ _ Hatt) as (fails & r & Hout & _).
    pose proof (fetch_outcomes_length env evs (history w)) as Hlen.
    rewrite Hout, Hf, length_app, length_replicate in Hlen. simpl in Hlen. lia.
  - intros m Hin ->. exact (Attempts_console _ _ _ _ _ _ _ _ Hatt _ Hin).
Qed.

(** ** loadConfig and checkForUpdates *)

(** C4, counterexample: the configuration request is answered 200 with
    the body [null].  [loadConfig] returns [null], which is no
    configuration, and the loader is left without an active one: the next
    [loadCSS] throws "Config not loaded". *)
Lemma loadConfig_null_counterexample :
  let w := snd (loadConfig (env_config JsonNull) "cfg" world_new) in
  ok {| status := 200; text := ""; json := Some JsonNull |} = true
  ∧ fst (loadConfig (env_config JsonNull) "cfg" world_new) = Ok JsonNull
  ∧ config (this w) = None
  ∧ fst (loadCSS (env_config JsonNull) "popup" w) = Throw err_not_loaded.
Proof. cbv zeta. splits; vm_compute; reflexivity. Qed.

(** C4, amended.  [loadConfig] never throws: it returns a value and
    makes it [this.config].  That value is the decoded body when the
    request is answered 2xx and the body decodes, whatever JSON value it
    is: a decoded object is returned and becomes the active
    configuration, while a falsy body ([null], [false], [0], [""]) is
    returned as it is and leaves the loader without an active
    configuration.  In every other case (rejected request, non-2xx
    status, undecodable body) the value is the embedded default, which
    becomes the active configuration.  The default has version "1.0.0",
    the single CSS asset [popup] with one source, cache duration 300000,
    3 attempts and delay 1000. *)
Theorem loadConfig_never_throws (env : Env) (configUrl : string) (w : World) :
  (∃ v w',
     loadConfig env configUrl w = (Ok v, w')
     ∧ config (this w') = as_config v
     ∧ v = match net env (history w) (Some configUrl) with
           | Resolved r =>
               if ok r then default (JsonObject default_config) (json r)
               else JsonObject default_config
           | Rejected _ => JsonObject default_config
           end
     ∧ (∀ o, v = JsonObject o → config (this w') = Some o)
     ∧ (config (this w') = None ↔ v = JsonNull ∨ v = JsonPrimitive false))
  ∧ version default_config = Some "1.0.0"
  ∧ (∃ o url,
       (assets default_config ≫= css) = Some o
       ∧ dom o = {[ "popup" ]}
       ∧ o !! "popup" = Some {| github_raw := Some url; github_pages := None;
                                fallback := Some "inline" |})
  ∧ (cdn_config default_config ≫= cache_duration) = Some 300000
  ∧ (cdn_config default_config ≫= retry_attempts) = Some 3
  ∧ (cdn_config default_config ≫= retry_delay) = Some 1000.
Proof.
  assert (Hfalsy : ∀ v, as_config v = None ↔ v = JsonNull ∨ v = JsonPrimitive false).
  { intros [|[]|o]; simpl; split; intros H; try discriminate; auto;
      destruct H; discriminate. }
  assert (Hstored : ∀ v, (∀ o, v = JsonObject o → as_config v = Some o)).
  { intros v o ->. reflexivity. }
  splits; try reflexivity.
  - mrun. destruct (net env (history w) (Some configUrl)) as [e|r]; simpl;
      [|destruct (ok r); simpl; [destruct (json r) as [v|]; simpl|]];
      eexists _, _; (split; [reflexivity|]); simpl;
      match goal with
      | |- _ ∧ ?v = _ ∧ _ =>
          splits; [reflexivity | reflexivity | exact (Hstored v) | exact (Hfalsy v)]
      end.
  - eexists _, _. splits; [reflexivity | apply dom_singleton_L
                           | apply lookup_singleton_eq].
Qed.

(** C5: [checkForUpdates] never throws.  With no active configuration or
    no (truthy) [update_check_url] it answers [false] and the world is
    unchanged; otherwise it requests that URL once and answers [true]
    exactly when the response is 2xx, its body decodes and the decoded
    [version] differs from the active one (a decoded primitive has no
    [version], which differs from any version the active configuration
    has).  A rejected request, a non-2xx status, a body that does not
    decode and a body [null], whose [version] cannot be read, all give
    [false]. *)
Theorem checkForUpdates_spec (env : Env) (w : World) :
  ∃ b w',
    checkForUpdates env w = (Ok b, w')
    ∧ match config (this w) with
      | None => b = false ∧ w' = w
      | Some c =>
          if truthy_str (update_check_url c) then
            fetches (drop (length (history w)) (history w')) = [update_check_url c]
            ∧ match net env (history w) (update_check_url c) with
              | Resolved r =>
                  if ok r then
                    match json r with
                    | Some (JsonObject latestConfig) =>
                        b = true ↔ version latestConfig ≠ version c
                    | Some (JsonPrimitive _) =>
                        b = true ↔ None ≠ version c
                    | Some JsonNull => b = false
                    | None => b = false
                    end
                  else b = false
              | Rejected _ => b = false
              end
          else b = false ∧ w' = w
      end.
Proof.
  unfold checkForUpdates, bind at 1, get_this.
  destruct (config (this w)) as [c|]; [|exists false, w; mrun; auto].
  mrun. destruct (truthy_str (update_check_url c)); simpl;
    [|exists false, w; auto].
  assert (Hdrop : ∀ evs, drop (length (history w)) (history w ++ evs) = evs).
  { intros evs. rewrite drop_app_length. reflexivity. }
  assert (Hneq : ∀ a b : option string,
            negb (bool_decide (a = b)) = true ↔ a ≠ b).
  { intros a b. rewrite negb_true_iff, bool_decide_eq_false. reflexivity. }
  destruct (net env (history w) (update_check_url c)) as [e|r]; simpl.
  - eexists _, _. split; [reflexivity|]. simpl.
    rewrite <- app_assoc, Hdrop. auto.
  - destruct (ok r); simpl.
    + destruct (json r) as [[|t|latestConfig]|]; simpl;
        eexists _, _; (split; [reflexivity|]); simpl;
        rewrite <- ?app_assoc, Hdrop; (split; [reflexivity|]);
        auto using Hneq.
    + eexists _, _. split; [reflexivity|]. simpl. rewrite Hdrop. auto.
Qed.

(** ** loadCSS *)

Section LoadCSS.

Variable env : Env.

Lemma check_cache_run c assetName w :
  check_cache env c assetName w =
    match cache (this w) !! cacheKey_of assetName with
    | None => (Ok None, w)
    | Some cached =>
        match cdn_config c with
        | None => (Throw (err_undefined_property "cache_duration"), w)
        | Some cdn =>
            if lt_num (clock env (history w) - timestamp cached) (cache_duration cdn)
            then (Ok (Some (content cached)),
                  {| this := this w;
                     history := history w ++ [EvConsole (MsgUsingCached assetName)] |})
            else (Ok None, w)
        end
    end.
Proof.
  mrun. destruct (cache (this w) !! cacheKey_of assetName) as [cached|];
    [|reflexivity].
  destruct (cdn_config c) as [cdn|]; [|reflexivity].
  destruct (lt_num _ _); reflexivity.
Qed.

Lemma store_or_fail_run assetName r w :
  store_or_fail env assetName r w =
    match r with
    | Some body =>
        if truthy_str r then (Ok body, world_after_store env assetName body w)
        else (Throw (err_failed assetName), w)
    | None => (Throw (err_failed assetName), w)
    end.
Proof.
  destruct r as [body|]; [|reflexivity].
  mrun. destruct (negb (String.eqb body "")); reflexivity.
Qed.

Lemma store_or_fail_falsy assetName r w :
  truthy_str r = false →
  store_or_fail env assetName r w = (Throw (err_failed assetName), w).
Proof.
  intros Hr. rewrite store_or_fail_run. destruct r; [rewrite Hr|]; reflexivity.
Qed.

Lemma store_or_fail_truthy assetName r w :
  truthy_str r = true →
  ∃ body, r = Some body ∧ body ≠ ""
    ∧ store_or_fail env assetName r w
      = (Ok body, world_after_store env assetName body w).
Proof.
  intros Hr. rewrite store_or_fail_run. destruct r as [body|]; [|discriminate].
  rewrite Hr. exists body. splits; auto.
  intros ->. discriminate.
Qed.

(** [loadCSS] once line 52 has read an entry: the cache check, then the
    network path. *)
Lemma loadCSS_found assetName w c cssConfig :
  config (this w) = Some c →
  lookup_asset c assetName = Some cssConfig →
  loadCSS env assetName w =
    (let! hit := check_cache env c assetName in
     match hit with
     | Some cached_content => ret cached_content
     | None =>
         let! cssContent := fetchWithRetry env (primaryUrl_of cssConfig) None in
         let! cssContent :=
           (if wants_fallback cssContent cssConfig then
              do! console MsgTryingFallback in
              fetchWithRetry env
                (fallbackUrl_of cssConfig (primaryUrl_of cssConfig)) None
            else ret cssContent) in
         store_or_fail env assetName cssContent
     end) w.
Proof.
  intros Hc Hcss. unfold loadCSS, bind at 1, get_this. rewrite Hc.
  unfold lookup_asset in Hcss. unfold bind at 1, read_asset.
  destruct (assets c) as [a|]; [|discriminate]. simpl in Hcss.
  destruct (css a) as [o|]; [|discriminate]. simpl in Hcss.
  unfold ret at 1. rewrite Hcss. reflexivity.
Qed.

(** [loadCSS] when line 52 reads no entry: it throws there, or at the
    test of line 53, and the world is as it was. *)
Lemma loadCSS_lookup_error assetName w c :
  config (this w) = Some c →
  lookup_asset c assetName = None →
  ∃ e, loadCSS env assetName w = (Throw e, w) ∧ lookup_error c assetName e.
Proof.
  intros Hc Hcss. unfold loadCSS, bind at 1, get_this. rewrite Hc.
  unfold lookup_asset in Hcss. unfold bind at 1, read_asset, lookup_error.
  destruct (assets c) as [a|]; [|eexists; split; [reflexivity | auto]].
  simpl in Hcss.
  destruct (css a) as [o|] eqn:Ho;
    [|eexists; split; [reflexivity | right; left; eauto]].
  simpl in Hcss. unfold ret at 1. rewrite Hcss.
  eexists. split; [reflexivity|]. right. right. eauto 6.
Qed.

(** After a cache miss, [loadCSS] is the primary retry-fetch, the optional
    fallback retry-fetch, and the store-or-throw tail. *)
Lemma loadCSS_miss assetName w c cssConfig :
  config (this w) = Some c →
  lookup_asset c assetName = Some cssConfig →
  check_cache env c assetName w = (Ok None, w) →
  loadCSS env assetName w =
    (let! cssContent := fetchWithRetry env (primaryUrl_of cssConfig) None in
     let! cssContent :=
       (if wants_fallback cssContent cssConfig then
          do! console MsgTryingFallback in
          fetchWithRetry env (fallbackUrl_of cssConfig (primaryUrl_of cssConfig)) None
        else ret cssContent) in
     store_or_fail env assetName cssContent) w.
Proof.
  intros Hc Hcss Hmiss. rewrite (loadCSS_found _ _ _ _ Hc Hcss).
  unfold bind at 1. rewrite Hmiss. reflexivity.
Qed.

(** The three ways the network path of [loadCSS] can go, in terms of the
    result [r1] of the primary retry-fetch. *)
Lemma loadCSS_miss_cases assetName w c cssConfig r1 w1 :
  config (this w) = Some c →
  lookup_asset c assetName = Some cssConfig →
  check_cache env c assetName w = (Ok None, w) →
  fetchWithRetry env (primaryUrl_of cssConfig) None w = (Ok r1, w1) →
  loadCSS env assetName w =
    if wants_fallback r1 cssConfig then
      (let! r2 := fetchWithRetry env
                    (fallbackUrl_of cssConfig (primaryUrl_of cssConfig)) None in
       store_or_fail env assetName r2) (world_at_fallback w1)
    else store_or_fail env assetName r1 w1.
Proof.
  intros Hc Hcss Hmiss Hr1. rewrite (loadCSS_miss _ _ _ _ Hc Hcss Hmiss).
  unfold bind at 1. rewrite Hr1.
  destruct (wants_fallback r1 cssConfig); reflexivity.
Qed.

Lemma wants_fallback_truthy r cssConfig :
  truthy_str r = true → wants_fallback r cssConfig = false.
Proof. intros Hr. unfold wants_fallback. rewrite Hr. reflexivity. Qed.

Lemma wants_fallback_falsy r cssConfig :
  truthy_str r = false →
  wants_fallback r cssConfig
  = truthy_str (github_raw cssConfig) && truthy_str (github_pages cssConfig).
Proof.
  intros Hr. unfold wants_fallback. rewrite Hr. simpl. apply andb_comm.
Qed.

(** With both sources truthy the primary URL is [github_raw] and the
    fallback URL is [github_pages]. *)
Lemma urls_when_both cssConfig :
  truthy_str (github_raw cssConfig) = true →
  truthy_str (github_pages cssConfig) = true →
  primaryUrl_of cssConfig = github_raw cssConfig
  ∧ fallbackUrl_of cssConfig (primaryUrl_of cssConfig) = github_pages cssConfig.
Proof.
  intros Hraw Hpages. unfold primaryUrl_of, or_str. rewrite Hraw.
  split; [reflexivity|]. unfold fallbackUrl_of.
  destruct (decide (github_pages cssConfig = github_raw cssConfig)) as [E|];
    [symmetry; exact E | reflexivity].
Qed.

End LoadCSS.

(** The network path of [loadCSS] ends in [store_or_fail] on the result
    [r] of the last retry-fetch made, in a world [w2] whose loader is
    still the one of the call. *)
Lemma loadCSS_miss_final (env : Env) assetName w c cssConfig :
  config (this w) = Some c →
  lookup_asset c assetName = Some cssConfig →
  check_cache env c assetName w = (Ok None, w) →
  ∃ r1 w1 r w2,
    fetchWithRetry env (primaryUrl_of cssConfig) None w = (Ok r1, w1)
    ∧ (if wants_fallback r1 cssConfig
       then fetchWithRetry env (fallbackUrl_of cssConfig (primaryUrl_of cssConfig))
              None (world_at_fallback w1) = (Ok r, w2)
       else r = r1 ∧ w2 = w1)
    ∧ this w2 = this w
    ∧ loadCSS env assetName w = store_or_fail env assetName r w2.
Proof.
  intros Hc Hcss Hmiss.
  destruct (fetchWithRetry_run env (primaryUrl_of cssConfig) None w)
    as (r1 & evs1 & w1 & Hr1 & Hthis1 & _ & _).
  rewrite (loadCSS_miss_cases env _ _ _ _ _ _ Hc Hcss Hmiss Hr1).
  destruct (wants_fallback r1 cssConfig) eqn:Hwant.
  - destruct (fetchWithRetry_run env
                (fallbackUrl_of cssConfig (primaryUrl_of cssConfig)) None
                (world_at_fallback w1))
      as (r2 & evs2 & w2 & Hr2 & Hthis2 & _ & _).
    exists r1, w1, r2, w2. rewrite Hwant. splits; auto.
    + rewrite Hthis2. exact Hthis1.
    + unfold bind. rewrite Hr2. reflexivity.
  - exists r1, w1, r1, w1. rewrite Hwant. splits; auto.
Qed.

Lemma loadCSS_not_loaded (env : Env) assetName w :
  config (this w) = None →
  loadCSS env assetName w = (Throw err_not_loaded, w).
Proof.
  intros Hc. unfold loadCSS, bind, get_this. rewrite Hc. reflexivity.
Qed.

Lemma loadCSS_not_found (env : Env) assetName w c a o :
  config (this w) = Some c →
  assets c = Some a → css a = Some o →
  get_property o assetName = None →
  loadCSS env assetName w = (Throw (err_not_found assetName), w).
Proof.
  intros Hc Ha Ho Hget. unfold loadCSS, bind, get_this, read_asset, ret.
  rewrite Hc, Ha, Ho, Hget. reflexivity.
Qed.

Lemma loadCSS_no_assets (env : Env) assetName w c :
  config (this w) = Some c →
  assets c = None →
  loadCSS env assetName w = (Throw (err_undefined_property "css"), w).
Proof.
  intros Hc Ha. unfold loadCSS, bind, get_this, read_asset.
  rewrite Hc, Ha. reflexivity.
Qed.

Lemma loadCSS_no_css (env : Env) assetName w c a :
  config (this w) = Some c →
  assets c = Some a → css a = None →
  loadCSS env assetName w = (Throw (err_undefined_property assetName), w).
Proof.
  intros Hc Ha Ho. unfold loadCSS, bind, get_this, read_asset.
  rewrite Hc, Ha, Ho. reflexivity.
Qed.

(** A name is read on the object itself or on [Object.prototype]. *)
Lemma get_property_None o name :
  get_property o name = None ↔ o !! name = None ∧ name ∉ Object_prototype_names.
Proof.
  unfold get_property. destruct (o !! name) as [v|].
  - split; [discriminate | intros [? _]; discriminate].
  - destruct (bool_decide_reflect (name ∈ Object_prototype_names)) as [Hin|Hin].
    + split; [discriminate | intros [_ ?]; contradiction].
    + split; auto.
Qed.

(** What a call of [loadCSS] does to the loader: nothing, or the one
    [cache.set] of the success path. *)
Lemma loadCSS_this (env : Env) assetName w res w' :
  loadCSS env assetName w = (res, w') →
  this w' = this w
  ∨ ∃ body w2, res = Ok body ∧ this w2 = this w
               ∧ w' = world_after_store env assetName body w2.
Proof.
  intros Hload.
  destruct (config (this w)) as [c|] eqn:Hc;
    [|rewrite (loadCSS_not_loaded env assetName w Hc) in Hload; left; congruence].
  destruct (lookup_asset c assetName) as [cssConfig|] eqn:Hcss;
    [|destruct (loadCSS_lookup_error env assetName w c Hc Hcss) as (e & He & _);
      rewrite He in Hload; left; congruence].
  assert (Hmiss : check_cache env c assetName w = (Ok None, w)
                  ∨ this w' = this w).
  { pose proof (check_cache_run env c assetName w) as Hcheck.
    rewrite (loadCSS_found env _ _ _ _ Hc Hcss) in Hload.
    unfold bind at 1 in Hload.
    destruct (cache (this w) !! cacheKey_of assetName) as [cached|]; [|auto].
    destruct (cdn_config c) as [cdn|].
    - destruct (lt_num _ _); [|auto].
      rewrite Hcheck in Hload. right. injection Hload as _ <-. reflexivity.
    - rewrite Hcheck in Hload. right. congruence. }
  destruct Hmiss as [Hmiss|]; [|auto].
  destruct (loadCSS_miss_final env _ _ _ _ Hc Hcss Hmiss)
    as (r1 & w1 & r & w2 & _ & _ & Hthis2 & Hfinal).
  rewrite Hfinal, store_or_fail_run in Hload.
  destruct r as [body|]; [destruct (truthy_str (Some body))|].
  - right. exists body, w2. injection Hload as <- <-. auto.
  - left. congruence.
  - left. congruence.
Qed.

(** C6, counterexample.  (1) The default configuration has no asset
    named [toString], yet [loadCSS "toString"] does not throw the "not
    found" error: the name is found on [Object.prototype], the three
    requests of the retry loop go out (for the URL [undefined]) and the
    call throws "Failed to load CSS".  (2) With a configuration object
    that has no [assets], the call throws a [TypeError] instead of the
    "not found" error. *)
Lemma loadCSS_precondition_counterexample :
  (∃ o, (assets default_config ≫= css) = Some o ∧ o !! "toString" = None)
  ∧ fst (loadCSS env_down "toString" (world_with default_config ∅))
    = Throw (Error "Failed to load CSS: toString")
  ∧ fetches (history (snd (loadCSS env_down "toString"
                             (world_with default_config ∅))))
    = [None; None; None]
  ∧ assets empty_object = None
  ∧ loadCSS env_down "popup" (world_with empty_object ∅)
    = (Throw (TypeError "Cannot read properties of undefined (reading 'css')"),
       world_with empty_object ∅).
Proof.
  splits; try (vm_compute; reflexivity).
  eexists. split; [reflexivity | vm_compute; reflexivity].
Qed.

(** C6, amended.  Without an active configuration [loadCSS] throws the
    "Config not loaded" error.  With a configuration that has an
    [assets.css] object, it throws the "not found" error for every name
    that is neither a key of that object nor one of the names that every
    object inherits.  With a configuration that has no [assets], or no
    [assets.css], it throws a [TypeError].  In all these cases the world
    is unchanged, so no request was made. *)
Theorem loadCSS_precondition_errors (env : Env) (assetName : string) (w : World) :
  (config (this w) = None →
   loadCSS env assetName w = (Throw err_not_loaded, w))
  ∧ (∀ c a o, config (this w) = Some c →
              assets c = Some a → css a = Some o →
              o !! assetName = None →
              assetName ∉ Object_prototype_names →
              loadCSS env assetName w = (Throw (err_not_found assetName), w))
  ∧ (∀ c, config (this w) = Some c →
          assets c = None →
          loadCSS env assetName w = (Throw (err_undefined_property "css"), w))
  ∧ (∀ c a, config (this w) = Some c →
            assets c = Some a → css a = None →
            loadCSS env assetName w
            = (Throw (err_undefined_property assetName), w)).
Proof.
  splits.
  - apply loadCSS_not_loaded.
  - intros c a o Hc Ha Ho Hown Hinh.
    apply (loadCSS_not_found env assetName w c a o Hc Ha Ho).
    apply get_property_None. auto.
  - intros c. apply loadCSS_no_assets.
  - intros c a. apply loadCSS_no_css.
Qed.

(** A fresh loader, and the default configuration asked for an unknown name. *)
Lemma loadCSS_precondition_errors_witness :
  loadCSS env_down "popup" {| this := constructor; history := [] |}
  = (Throw (Error "Config not loaded. Call loadConfig() first."),
     {| this := constructor; history := [] |})
  ∧ loadCSS env_down "nonexistent" (world_with default_config ∅)
    = (Throw (Error "CSS asset 'nonexistent' not found in config"),
       world_with default_config ∅).
Proof.
  split.
  - apply (proj1 (loadCSS_precondition_errors env_down "popup"
                    {| this := constructor; history := [] |})).
    reflexivity.
  - pose (o := {[ "popup" :=
                  {| github_raw := Some "https://raw.githubusercontent.com/pokessniper/pokesnipe-assets/main/styles/popup.css";
                     github_pages := None;
                     fallback := Some "inline" |} ]} : gmap string CssConfig).
    assert (Hget : get_property o "nonexistent" = None) by (vm_compute; reflexivity).
    apply get_property_None in Hget as [Hown Hinh].
    apply (proj1 (proj2 (loadCSS_precondition_errors env_down "nonexistent"
                           (world_with default_config ∅)))
             default_config {| css := Some o |} o);
      [reflexivity | reflexivity | reflexivity | exact Hown | exact Hinh].
Defined.

(** C8, counterexample: the only source of [popup] is answered 200 with
    an empty body.  The retry-fetch returns that body, after one request,
    yet [loadCSS] stores nothing and throws "Failed to load CSS". *)
Lemma loadCSS_empty_body_counterexample :
  let env := env_only "p" "" in
  let w := world_with (config_with (pages_only "p") None) ∅ in
  fst (fetchWithRetry env (Some "p") None w) = Ok (Some "")
  ∧ fst (loadCSS env "popup" w) = Throw (Error "Failed to load CSS: popup")
  ∧ fetches (history (snd (loadCSS env "popup" w))) = [Some "p"]
  ∧ cache (this (snd (loadCSS env "popup" w))) !! "css_popup" = None.
Proof. cbv zeta. splits; vm_compute; reflexivity. Qed.

(** C8, amended.  On the network path, the result [r] of the last
    retry-fetch made (the primary one when it yields a non-empty body or
    no fallback applies, the fallback one otherwise) decides the call.
    If [r] is a non-empty body, it is stored under the key
    ["css_" + assetName] with the clock reading of that moment, nothing
    else in the loader changes, and the body is returned.  If [r] is
    [null] or an empty body, [loadCSS] throws the "Failed to load CSS"
    error carrying the asset name, and the loader is unchanged. *)
Theorem loadCSS_store_or_fail (env : Env) (assetName : string) (w : World)
    (c : Config) (cssConfig : CssConfig) :
  config (this w) = Some c →
  lookup_asset c assetName = Some cssConfig →
  check_cache env c assetName w = (Ok None, w) →
  ∃ r1 w1 r w2,
    fetchWithRetry env (primaryUrl_of cssConfig) None w = (Ok r1, w1)
    ∧ (if wants_fallback r1 cssConfig
       then fetchWithRetry env (fallbackUrl_of cssConfig (primaryUrl_of cssConfig))
              None (world_at_fallback w1) = (Ok r, w2)
       else r = r1 ∧ w2 = w1)
    ∧ (∀ body, r1 = Some body → body ≠ "" → r = r1)
    ∧ (∀ body, r = Some body → body ≠ "" →
       ∃ w',
         loadCSS env assetName w = (Ok body, w')
         ∧ cache (this w')
           = <["css_" +:+ assetName :=
                 {| content := body; timestamp := clock env (history w2) |}]>
               (cache (this w))
         ∧ cache (this w') !! ("css_" +:+ assetName)
           = Some {| content := body; timestamp := clock env (history w2) |}
         ∧ config (this w') = config (this w)
         ∧ retryAttempts (this w') = retryAttempts (this w)
         ∧ retryDelay (this w') = retryDelay (this w)
         ∧ history w' = history w2 ++ [EvConsole (MsgCssLoaded assetName)])
    ∧ (r = None ∨ r = Some "" →
       loadCSS env assetName w
       = (Throw (Error ("Failed to load CSS: " +:+ assetName)), w2)
       ∧ this w2 = this w).
Proof.
  intros Hc Hcss Hmiss.
  destruct (loadCSS_miss_final env _ _ _ _ Hc Hcss Hmiss)
    as (r1 & w1 & r & w2 & Hr1 & Hr & Hthis2 & Hload).
  assert (Htruthy : ∀ body, body ≠ "" → truthy_str (Some body) = true).
  { intros body Hne. simpl. destruct (String.eqb_spec body ""); [contradiction|].
    reflexivity. }
  exists r1, w1, r, w2. splits; auto.
  - intros body -> Hne.
    rewrite (wants_fallback_truthy _ _ (Htruthy body Hne)) in Hr. apply Hr.
  - intros body -> Hne.
    destruct (store_or_fail_truthy env assetName (Some body) w2 (Htruthy body Hne))
      as (body' & E & _ & Hs).
    injection E as <-. rewrite Hs in Hload.
    exists (world_after_store env assetName body w2).
    split; [exact Hload|]. simpl. rewrite Hthis2.
    splits; try reflexivity. apply lookup_insert_eq.
  - intros Hr0. split; [|exact Hthis2].
    rewrite Hload. apply store_or_fail_falsy.
    destruct Hr0 as [->| ->]; reflexivity.
Qed.

(** The primary is down, the fallback answers: its body is stored and returned. *)
Lemma loadCSS_store_or_fail_witness :
  ∃ w',
    loadCSS (env_only "s" "body{}") "popup"
      (world_with (config_with (two_sources "p" "s") None) ∅)
    = (Ok "body{}", w')
    ∧ ∃ now, cache (this w') !! "css_popup"
             = Some {| content := "body{}"; timestamp := now |}.
Proof.
  destruct (loadCSS_store_or_fail (env_only "s" "body{}") "popup"
              (world_with (config_with (two_sources "p" "s") None) ∅)
              (config_with (two_sources "p" "s") None) (two_sources "p" "s")
              eq_refl ltac:(vm_compute; reflexivity) ltac:(vm_compute; reflexivity))
    as (r1 & w1 & r & w2 & Hr1 & Hr & _ & Hok & _).
  assert (E1 : r1 = None).
  { vm_compute in Hr1. injection Hr1 as <- _. reflexivity. }
  subst r1. change (wants_fallback None (two_sources "p" "s")) with true in Hr.
  change (fallbackUrl_of (two_sources "p" "s") (primaryUrl_of (two_sources "p" "s")))
    with (Some "s") in Hr.
  assert (E2 : r = Some "body{}").
  { vm_compute in Hr1. injection Hr1 as <-. vm_compute in Hr.
    injection Hr as <- _. reflexivity. }
  destruct (Hok "body{}" E2 ltac:(discriminate)) as (w' & Hload & _ & Hlook & _).
  exists w'. split; [exact Hload|]. eexists. exact Hlook.
Defined.

(** C9: when [loadCSS] throws (in particular with the "Failed to load CSS"
    error, every network path exhausted), the loader is exactly as it was
    before the call: no cache entry is created, and a stale entry keeps
    its content and timestamp. *)
Theorem loadCSS_failure_keeps_cache (env : Env) (assetName : string)
    (w w' : World) (e : JsError) :
  loadCSS env assetName w = (Throw e, w') →
  this w' = this w
  ∧ ∀ key, cache (this w') !! key = cache (this w) !! key.
Proof.
  intros Hload.
  destruct (loadCSS_this env _ _ _ _ Hload) as [Hthis|(body & w2 & E & _)];
    [|discriminate].
  split; [exact Hthis | intros key; rewrite Hthis; reflexivity].
Qed.

(** Everything is down: the stale entry is still there after the failure. *)
Lemma loadCSS_failure_keeps_cache_witness :
  cache (this (snd (loadCSS env_down "popup" world_stale))) !! "css_popup"
  = Some {| content := "old"; timestamp := -1000 |}.
Proof.
  destruct (loadCSS_failure_keeps_cache env_down "popup" world_stale
              (snd (loadCSS env_down "popup" world_stale)) (err_failed "popup"))
    as [_ Hcache].
  - vm_compute. reflexivity.
  - rewrite Hcache. vm_compute. reflexivity.
Defined.

(** ** The fallback source *)

(** C1, counterexample.  (1) With [github_raw] and [github_pages] set to
    the same URL the second retry-fetch is still performed, against that
    same URL: six requests instead of three.  (2) With the primary failing
    and the secondary answering 200 with an empty body, [loadCSS] throws
    instead of returning that body.  (3) With [retry_attempts] set to -1
    neither the primary nor the secondary is ever requested and [loadCSS]
    throws although the secondary would answer. *)
Lemma loadCSS_fallback_counterexample :
  (let w := world_with (config_with (two_sources "u" "u") None) ∅ in
   github_raw (two_sources "u" "u") = github_pages (two_sources "u" "u")
   ∧ In (EvConsole MsgTryingFallback) (history (snd (loadCSS env_down "popup" w)))
   ∧ fetches (history (snd (loadCSS env_down "popup" w))) = replicate 6 (Some "u"))
  ∧ (let w := world_with (config_with (two_sources "p" "s") None) ∅ in
     fst (loadCSS (env_only "s" "") "popup" w) = Throw (err_failed "popup")
     ∧ fetches (history (snd (loadCSS (env_only "s" "") "popup" w)))
       = [Some "p"; Some "p"; Some "p"; Some "s"])
  ∧ (let w := world_with (config_with (two_sources "p" "s") (Some (-1))) ∅ in
     fst (loadCSS (env_only "s" "body{}") "popup" w) = Throw (err_failed "popup")
     ∧ fetches (history (snd (loadCSS (env_only "s" "body{}") "popup" w))) = []).
Proof.
  cbv zeta. splits; try (vm_compute; reflexivity).
  vm_compute. repeat (try (left; reflexivity); right).
Qed.

(** C1, amended.  First part: when the primary retry-fetch yields no
    content ([null] or an empty body), a second retry-fetch is performed
    exactly when [github_raw] and [github_pages] are both configured
    (truthy), whether or not they are distinct; the primary URL is then
    [github_raw], the second retry-fetch targets [github_pages] (which is
    the one that differs from the primary URL when they are distinct) and
    its result decides the call; otherwise the call fails right after the
    primary retry-fetch.  Second part: with a positive effective attempt
    count, the primary P failing every attempt and the secondary S always
    answering 2xx with a non-empty body, [loadCSS] returns that body after
    [maxAttempts] requests of P followed by one request of S. *)
Theorem loadCSS_fallback :
  (∀ (env : Env) (assetName : string) (w : World) (c : Config)
     (cssConfig : CssConfig) (r1 : option string) (w1 : World)
     (res : Outcome string) (w' : World),
     config (this w) = Some c →
     lookup_asset c assetName = Some cssConfig →
     check_cache env c assetName w = (Ok None, w) →
     fetchWithRetry env (primaryUrl_of cssConfig) None w = (Ok r1, w1) →
     truthy_str r1 = false →
     loadCSS env assetName w = (res, w') →
     let both := truthy_str (github_raw cssConfig)
                 && truthy_str (github_pages cssConfig) in
     (In (EvConsole MsgTryingFallback) (drop (length (history w)) (history w'))
      ↔ both = true)
     ∧ (both = true →
        primaryUrl_of cssConfig = github_raw cssConfig
        ∧ (github_raw cssConfig ≠ github_pages cssConfig →
           github_pages cssConfig ≠ primaryUrl_of cssConfig)
        ∧ (res, w')
          = (let! r2 := fetchWithRetry env (github_pages cssConfig) None in
             store_or_fail env assetName r2) (world_at_fallback w1))
     ∧ (both = false → (res, w') = (Throw (err_failed assetName), w1)))
  ∧ (∀ (env : Env) (assetName : string) (w : World) (c : Config)
       (cssConfig : CssConfig) (P S : string) (resp : HttpResponse),
       config (this w) = Some c →
       lookup_asset c assetName = Some cssConfig →
       check_cache env c assetName w = (Ok None, w) →
       github_raw cssConfig = Some P → P ≠ "" →
       github_pages cssConfig = Some S → S ≠ "" →
       (∀ h, failed (net env h (Some P)) = true) →
       (∀ h, net env h (Some S) = Resolved resp) →
       ok resp = true → text resp ≠ "" →
       0 < maxAttempts_of (this w) None →
       ∃ w', loadCSS env assetName w = (Ok (text resp), w')
             ∧ fetches (drop (length (history w)) (history w'))
               = replicate (Z.to_nat (maxAttempts_of (this w) None)) (Some P)
                 ++ [Some S]).
Proof.
  split.
  - intros env assetName w c cssConfig r1 w1 res w' Hc Hcss Hmiss Hr1 Hfalsy Hload both.
    destruct (fetchWithRetry_requests env (primaryUrl_of cssConfig) None w)
      as (r1' & evs1 & w1' & k1 & Hrun1 & _ & Hhist1 & _ & _ & _ & _ & _ & Hmark1).
    rewrite Hr1 in Hrun1. injection Hrun1 as <- <-.
    rewrite (loadCSS_miss_cases env _ _ _ _ _ _ Hc Hcss Hmiss Hr1),
      (wants_fallback_falsy _ _ Hfalsy) in Hload.
    fold both in Hload. destruct both eqn:Hboth.
    + apply andb_true_iff in Hboth as [Hraw Hpages].
      destruct (urls_when_both _ Hraw Hpages) as [Hprim Hfb].
      rewrite Hfb in Hload.
      assert (Hin : In (EvConsole MsgTryingFallback)
                      (drop (length (history w)) (history w'))).
      { destruct (fetchWithRetry_requests env (github_pages cssConfig) None
                    (world_at_fallback w1))
          as (r2 & evs2 & w2 & k2 & Hrun2 & _ & Hhist2 & _).
        unfold bind in Hload. rewrite Hrun2, store_or_fail_run in Hload.
        assert (Hw' : ∃ tl, history w' = history w2 ++ tl).
        { destruct r2 as [body|]; [destruct (truthy_str (Some body))|];
            injection Hload as _ <-;
            [eexists; reflexivity | exists []; rewrite app_nil_r; reflexivity ..]. }
        destruct Hw' as [tl ->]. rewrite Hhist2. simpl. rewrite Hhist1.
        rewrite <- !app_assoc, drop_app_length.
        apply in_or_app. right. left. reflexivity. }
      splits; [tauto | |]; [|discriminate].
      intros _. splits; [exact Hprim | | symmetry; exact Hload].
      rewrite Hprim. congruence.
    + rewrite (store_or_fail_falsy env _ _ _ Hfalsy) in Hload.
      injection Hload as <- <-.
      splits; [|discriminate|reflexivity].
      split; [|discriminate].
      rewrite Hhist1, drop_app_length. intros Hin.
      exfalso. exact (Hmark1 _ Hin eq_refl).
  - intros env assetName w c cssConfig P S resp Hc Hcss Hmiss HP HPne HS HSne
      Hfail Hgood Hok Hbody Hpos.
    assert (HtP : truthy_str (github_raw cssConfig) = true).
    { rewrite HP. simpl. destruct (String.eqb_spec P ""); [contradiction|reflexivity]. }
    assert (HtS : truthy_str (github_pages cssConfig) = true).
    { rewrite HS. simpl. destruct (String.eqb_spec S ""); [contradiction|reflexivity]. }
    destruct (urls_when_both _ HtP HtS) as [Hprim Hfb].
    rewrite HP in Hprim. rewrite HS in Hfb.
    destruct (fetchWithRetry_run env (Some P) None w)
      as (r1 & evs1 & w1 & Hr1 & Hthis1 & Hhist1 & Hatt1).
    pose proof (Attempts_all_fail _ _ _ _ _ _ _ _ Hfail Hatt1). subst r1.
    destruct (Attempts_schedule _ _ _ _ _ _ _ _ Hatt1) as (k1 & _ & Htl1 & _ & Hk1).
    specialize (Hk1 eq_refl). rewrite Z.sub_0_r in Hk1.
    assert (Hf1 : fetches evs1 = replicate k1 (Some P)).
    { rewrite <- fetches_timeline, Htl1. apply fetches_backoff_schedule. }
    destruct (fetchWithRetry_run env (Some S) None (world_at_fallback w1))
      as (r2 & evs2 & w2 & Hr2 & Hthis2 & Hhist2 & Hatt2).
    assert (Hpos2 : 0 < maxAttempts_of (this (world_at_fallback w1)) None).
    { simpl. rewrite Hthis1. exact Hpos. }
    destruct (Attempts_first_success _ _ _ _ _ _ _ _ _ Hgood Hok Hpos2 Hatt2)
      as [-> ->].
    rewrite <- Hprim in Hr1.
    rewrite (loadCSS_miss_cases env _ _ _ _ _ _ Hc Hcss Hmiss Hr1).
    rewrite (wants_fallback_falsy None cssConfig eq_refl), HtP, HtS. simpl.
    rewrite Hfb. unfold bind. rewrite Hr2, store_or_fail_run.
    assert (Ht : truthy_str (Some (text resp)) = true).
    { simpl. destruct (String.eqb_spec (text resp) ""); [contradiction|reflexivity]. }
    rewrite Ht. eexists. split; [reflexivity|].
    simpl. rewrite Hhist2. simpl. rewrite Hhist1.
    rewrite <- !app_assoc, drop_app_length, !fetches_app, Hf1, Hk1.
    reflexivity.
Qed.

(** Equal URLs still get the fallback line; distinct ones give P, P, P, S. *)
Lemma loadCSS_fallback_witness :
  In (EvConsole MsgTryingFallback)
     (drop (length (history (world_with (config_with (two_sources "u" "u") None) ∅)))
        (history (snd (loadCSS env_down "popup"
                         (world_with (config_with (two_sources "u" "u") None) ∅)))))
  ∧ ∃ w', loadCSS (env_only "s" "body{}") "popup"
            (world_with (config_with (two_sources "p" "s") None) ∅)
          = (Ok "body{}", w')
          ∧ fetches (drop 0 (history w'))
            = [Some "p"; Some "p"; Some "p"; Some "s"].
Proof.
  split.
  - pose (w := world_with (config_with (two_sources "u" "u") None) ∅).
    destruct (proj1 loadCSS_fallback env_down "popup" w
                (config_with (two_sources "u" "u") None) (two_sources "u" "u")
                None (snd (fetchWithRetry env_down (Some "u") None w))
                (fst (loadCSS env_down "popup" w))
                (snd (loadCSS env_down "popup" w)))
      as [Hiff _]; try (vm_compute; reflexivity).
    apply Hiff. reflexivity.
  - apply (proj2 loadCSS_fallback (env_only "s" "body{}") "popup"
             (world_with (config_with (two_sources "p" "s") None) ∅)
             (config_with (two_sources "p" "s") None) (two_sources "p" "s")
             "p" "s" (response_css "body{}"));
      try (vm_compute; reflexivity); try discriminate; try (intros h; reflexivity).
Defined.

(** ** The cache *)

(** A fresh entry is returned without touching the network. *)
Lemma loadCSS_hit (env : Env) assetName w c cssConfig cached cdn dur :
  config (this w) = Some c →
  lookup_asset c assetName = Some cssConfig →
  cache (this w) !! cacheKey_of assetName = Some cached →
  cdn_config c = Some cdn → cache_duration cdn = Some dur →
  clock env (history w) - timestamp cached < dur →
  loadCSS env assetName w
  = (Ok (content cached),
     {| this := this w;
        history := history w ++ [EvConsole (MsgUsingCached assetName)] |}).
Proof.
  intros Hc Hcss Hcache Hcdn Hdur Hfresh.
  rewrite (loadCSS_found env _ _ _ _ Hc Hcss).
  unfold bind. rewrite check_cache_run, Hcache, Hcdn, Hdur. simpl.
  destruct (Z.ltb_spec (clock env (history w) - timestamp cached) dur); [|lia].
  reflexivity.
Qed.

(** On the network path the call makes a request whenever the effective
    attempt count is positive, and it cannot return without one. *)
Lemma loadCSS_miss_requests (env : Env) assetName w c cssConfig res w' :
  config (this w) = Some c →
  lookup_asset c assetName = Some cssConfig →
  check_cache env c assetName w = (Ok None, w) →
  loadCSS env assetName w = (res, w') →
  (0 < maxAttempts_of (this w) None →
   fetches (drop (length (history w)) (history w')) ≠ [])
  ∧ (fetches (drop (length (history w)) (history w')) = [] →
     res = Throw (err_failed assetName)).
Proof.
  intros Hc Hcss Hmiss Hload.
  destruct (fetchWithRetry_requests env (primaryUrl_of cssConfig) None w)
    as (r1 & evs1 & w1 & k1 & Hr1 & Hthis1 & Hhist1 & Hf1 & _ & Hpos1 & _ & Hsome1 & _).
  rewrite (loadCSS_miss_cases env _ _ _ _ _ _ Hc Hcss Hmiss Hr1) in Hload.
  assert (Hne : ∀ k u l, (1 ≤ k)%nat → replicate k u ++ l ≠ ([] : list (option string))).
  { intros [|k] u l Hk; [lia | discriminate]. }
  destruct (wants_fallback r1 cssConfig).
  - destruct (fetchWithRetry_requests env
                (fallbackUrl_of cssConfig (primaryUrl_of cssConfig)) None
                (world_at_fallback w1))
      as (r2 & evs2 & w2 & k2 & Hr2 & _ & Hhist2 & Hf2 & _ & _ & _ & Hsome2 & _).
    unfold bind in Hload. rewrite Hr2, store_or_fail_run in Hload.
    simpl in Hhist2. rewrite Hhist1, <- !app_assoc in Hhist2.
    destruct r2 as [body|]; [destruct (truthy_str (Some body))|];
      injection Hload as <- <-; simpl; rewrite Hhist2, ?drop_app_length;
      rewrite <- ?app_assoc, ?drop_app_length, !fetches_app, Hf1, Hf2; simpl.
    + split.
      * intros Hpos. apply Hne. auto.
      * intros E. apply app_eq_nil in E as [_ E]. apply app_eq_nil in E as [E _].
        specialize (Hsome2 ltac:(eauto)). destruct k2; [lia|discriminate].
    + split; [intros Hpos; apply Hne; auto | reflexivity].
    + split; [intros Hpos; apply Hne; auto | reflexivity].
  - rewrite store_or_fail_run in Hload.
    destruct r1 as [body|]; [destruct (truthy_str (Some body))|];
      injection Hload as <- <-; simpl; rewrite Hhist1;
      rewrite <- ?app_assoc, ?drop_app_length, ?fetches_app, Hf1; simpl.
    + split.
      * intros Hpos. rewrite app_nil_r. specialize (Hpos1 Hpos).
        destruct k1; [lia|discriminate].
      * intros E. rewrite app_nil_r in E.
        specialize (Hsome1 ltac:(eauto)). destruct k1; [lia|discriminate].
    + split; [|reflexivity]. intros Hpos. specialize (Hpos1 Hpos).
      destruct k1; [lia|discriminate].
    + split; [|reflexivity]. intros Hpos. specialize (Hpos1 Hpos).
      destruct k1; [lia|discriminate].
Qed.

(** A call that returns leaves an entry holding what it returned, and
    does not touch the configuration. *)
Lemma loadCSS_ok_cached (env : Env) assetName w body w1 :
  loadCSS env assetName w = (Ok body, w1) →
  config (this w1) = config (this w)
  ∧ (∃ c cssConfig, config (this w) = Some c
                    ∧ lookup_asset c assetName = Some cssConfig)
  ∧ ∃ entry, cache (this w1) !! cacheKey_of assetName = Some entry
             ∧ content entry = body.
Proof.
  intros Hload.
  destruct (config (this w)) as [c|] eqn:Hc;
    [|rewrite (loadCSS_not_loaded env assetName w Hc) in Hload;
      discriminate].
  destruct (lookup_asset c assetName) as [cssConfig|] eqn:Hcss;
    [|destruct (loadCSS_lookup_error env assetName w c Hc Hcss) as (e & He & _);
      rewrite He in Hload; discriminate].
  assert (Hcases :
    check_cache env c assetName w = (Ok None, w)
    ∨ ∃ cached, cache (this w) !! cacheKey_of assetName = Some cached
                ∧ (Ok body, w1)
                  = (Ok (content cached),
                     {| this := this w;
                        history := history w ++ [EvConsole (MsgUsingCached assetName)] |})).
  { pose proof (check_cache_run env c assetName w) as Hcheck.
    rewrite (loadCSS_found env _ _ _ _ Hc Hcss) in Hload.
    unfold bind at 1 in Hload.
    destruct (cache (this w) !! cacheKey_of assetName) as [cached|]; [|auto].
    destruct (cdn_config c) as [cdn|].
    - destruct (lt_num _ _); [|auto].
      rewrite Hcheck in Hload. right. exists cached. split; [reflexivity|].
      symmetry. exact Hload.
    - rewrite Hcheck in Hload. discriminate. }
  destruct Hcases as [Hmiss|(cached & Hcache & E)].
  - destruct (loadCSS_miss_final env _ _ _ _ Hc Hcss Hmiss)
      as (r1 & w1' & r & w2 & _ & _ & Hthis2 & Hfinal).
    rewrite Hfinal, store_or_fail_run in Hload.
    destruct r as [body'|]; [destruct (truthy_str (Some body'))|]; try discriminate.
    injection Hload as <- <-. simpl. rewrite Hthis2. splits; eauto.
    eexists. split; [apply lookup_insert_eq | reflexivity].
  - injection E as -> ->. simpl. splits; eauto.
Qed.

(** C2, counterexample.  (1) The entry has expired (age 1000, duration
    100) but [retry_attempts] is -1: the call makes no request at all and
    throws.  (2) Three calls starting from an empty cache, with a cache
    duration of 100: the first fetches "old" and stamps it at 1120; the
    second, at 1180, is served from the cache; the third, at 1240 and so
    only 60 after the second, finds the entry at age 120, requests the
    primary URL and returns a different content. *)
Lemma loadCSS_cache_counterexample :
  (fst (loadCSS env_down "popup" world_stale_no_attempts)
   = Throw (err_failed "popup")
   ∧ fetches (history (snd (loadCSS env_down "popup" world_stale_no_attempts))) = [])
  ∧ (let first := loadCSS env_ticking "popup" world_two_sources in
     let second := loadCSS env_ticking "popup" (snd first) in
     let third := loadCSS env_ticking "popup" (snd second) in
     fst first = Ok "old"
     ∧ cache (this (snd first)) !! "css_popup"
       = Some {| content := "old"; timestamp := 1120 |}
     ∧ clock env_ticking (history (snd first)) = 1180
     ∧ fst second = Ok "old"
     ∧ fetches (drop (length (history (snd first))) (history (snd second))) = []
     ∧ clock env_ticking (history (snd second)) = 1240
     ∧ this (snd second) = this (snd first)
     ∧ fst third = Ok "new"
     ∧ fetches (drop (length (history (snd second))) (history (snd third)))
       = [Some "p"]).
Proof. cbv zeta. splits; vm_compute; reflexivity. Qed.

(** C2, amended.  First part: for an asset of the active configuration
    that has a cache entry, [loadCSS] returns the cached content without a
    request when [now - timestamp < cache_duration]; when that fails the
    cache is bypassed, the call cannot return without a request, and it
    makes at least one request provided the effective attempt count is
    positive.  Second part: after a call that returned, the cache holds an
    entry with the returned content, and any later call on the same loader
    made within [cache_duration] of that entry's timestamp returns the
    same content without a request. *)
Theorem loadCSS_cache_ttl :
  (∀ (env : Env) (assetName : string) (w : World) (c : Config)
     (cssConfig : CssConfig) (cached : CacheEntry) (cdn : CdnConfig) (dur : Z),
     config (this w) = Some c →
     lookup_asset c assetName = Some cssConfig →
     cache (this w) !! cacheKey_of assetName = Some cached →
     cdn_config c = Some cdn → cache_duration cdn = Some dur →
     let now := clock env (history w) in
     (now - timestamp cached < dur →
      loadCSS env assetName w
      = (Ok (content cached),
         {| this := this w;
            history := history w ++ [EvConsole (MsgUsingCached assetName)] |}))
     ∧ (¬ now - timestamp cached < dur →
        ∀ res w', loadCSS env assetName w = (res, w') →
          (fetches (drop (length (history w)) (history w')) = [] →
           res = Throw (err_failed assetName))
          ∧ (0 < maxAttempts_of (this w) None →
             fetches (drop (length (history w)) (history w')) ≠ [])))
  ∧ (∀ (env : Env) (assetName : string) (w w1 : World) (body : string)
       (c : Config) (cdn : CdnConfig) (dur : Z),
       loadCSS env assetName w = (Ok body, w1) →
       config (this w) = Some c →
       cdn_config c = Some cdn → cache_duration cdn = Some dur →
       ∃ entry,
         cache (this w1) !! cacheKey_of assetName = Some entry
         ∧ content entry = body
         ∧ ∀ w2, this w2 = this w1 →
                 clock env (history w2) - timestamp entry < dur →
                 loadCSS env assetName w2
                 = (Ok body,
                    {| this := this w2;
                       history := history w2
                                  ++ [EvConsole (MsgUsingCached assetName)] |})).
Proof.
  split.
  - intros env assetName w c cssConfig cached cdn dur Hc Hcss Hcache Hcdn Hdur now.
    split.
    + intros Hfresh. eapply loadCSS_hit; eauto.
    + intros Hstale res w' Hload.
      assert (Hmiss : check_cache env c assetName w = (Ok None, w)).
      { rewrite check_cache_run, Hcache, Hcdn, Hdur. simpl. fold now.
        destruct (Z.ltb_spec (now - timestamp cached) dur); [lia|reflexivity]. }
      destruct (loadCSS_miss_requests env _ _ _ _ _ _ Hc Hcss Hmiss Hload).
      split; assumption.
  - intros env assetName w w1 body c cdn dur Hload Hc Hcdn Hdur.
    destruct (loadCSS_ok_cached env _ _ _ _ Hload)
      as (Hcfg & (c' & cssConfig & Hc' & Hcss) & entry & Hentry & Hbody).
    assert (c' = c) by congruence. subst c'.
    exists entry. splits; auto.
    intros w2 Hthis Hfresh. rewrite <- Hbody.
    eapply loadCSS_hit; eauto; rewrite Hthis; congruence.
Qed.

(** An entry of age 90 is served; what a call fetched is in the cache. *)
Lemma loadCSS_cache_ttl_witness :
  loadCSS env_ticking "popup" world_aging
  = (Ok "old",
     {| this := this world_aging;
        history := [EvConsole (MsgUsingCached "popup")] |})
  ∧ ∃ entry,
      cache (this (snd (loadCSS env_ticking "popup" world_two_sources)))
        !! "css_popup" = Some entry
      ∧ content entry = "old".
Proof.
  pose (cdn := {| primary_host := Some "github_raw"; cache_duration := Some 100;
                  retry_attempts := None; retry_delay := Some 1000 |}).
  split.
  - apply (proj1 (proj1 loadCSS_cache_ttl env_ticking "popup" world_aging
                    (config_with (two_sources "p" "s") None) (two_sources "p" "s")
                    {| content := "old"; timestamp := 910 |} cdn 100
                    eq_refl eq_refl eq_refl eq_refl eq_refl)).
    vm_compute. reflexivity.
  - destruct (proj2 loadCSS_cache_ttl env_ticking "popup" world_two_sources
                (snd (loadCSS env_ticking "popup" world_two_sources))
                "old" (config_with (two_sources "p" "s") None) cdn 100)
      as (entry & Hentry & Hbody & _); try reflexivity.
    exists entry. split; assumption.
Defined.

(** ** The effective attempt count *)

Lemma loadConfig_this (env : Env) configUrl w :
  cache (this (snd (loadConfig env configUrl w))) = cache (this w)
  ∧ retryAttempts (this (snd (loadConfig env configUrl w))) = retryAttempts (this w)
  ∧ retryDelay (this (snd (loadConfig env configUrl w))) = retryDelay (this w).
Proof.
  mrun. destruct (net env (history w) (Some configUrl)) as [e|r]; simpl; auto.
  destruct (ok r); simpl; auto.
  destruct (json r); simpl; auto.
Qed.

Lemma checkForUpdates_this (env : Env) w :
  this (snd (checkForUpdates env w)) = this w.
Proof.
  mrun. destruct (config (this w)) as [c|]; simpl; auto.
  destruct (truthy_str (update_check_url c)); simpl; auto.
  destruct (net env (history w) (update_check_url c)) as [e|r]; simpl; auto.
  destruct (ok r); simpl; auto.
  destruct (json r) as [[|t|o]|]; simpl; auto.
Qed.

(** No method assigns [retryAttempts] or [retryDelay]: they keep the
    values the constructor gave them. *)
Lemma Reachable_retry_defaults (env : Env) w :
  Reachable env w →
  retryAttempts (this w) = 3 ∧ retryDelay (this w) = 1000.
Proof.
  induction 1 as [|w configUrl _ IH|w assetName _ IH|w url attempts _ IH
                 |w _ IH|w _ IH].
  - split; reflexivity.
  - destruct (loadConfig_this env configUrl w) as (_ & -> & ->). exact IH.
  - destruct (loadCSS env assetName w) as [res w'] eqn:Hload. simpl.
    destruct (loadCSS_this env _ _ _ _ Hload) as [Hthis|(body & w2 & _ & Hw2 & ->)];
      [rewrite Hthis; exact IH | simpl; rewrite Hw2; exact IH].
  - destruct (fetchWithRetry_run env url attempts w)
      as (res & evs & w' & Hrun & Hthis & _).
    rewrite Hrun. simpl. rewrite Hthis. exact IH.
  - rewrite checkForUpdates_this. exact IH.
  - exact IH.
Qed.

(** C10, counterexample: a configuration whose [retry_attempts] is -1 is
    truthy, so it is the effective attempt count; the loop body never
    runs and [fetchWithRetry] returns [null] without a single request. *)
Lemma fetchWithRetry_negative_count_no_request :
  let w := world_with (config_with (two_sources "p" "s") (Some (-1))) ∅ in
  maxAttempts_of (this w) None = -1
  ∧ fetchWithRetry env_down (Some "p") None w = (Ok None, w)
  ∧ fetches (history (snd (fetchWithRetry env_down (Some "p") None w))) = [].
Proof. cbv zeta. splits; vm_compute; reflexivity. Qed.

(** C10, amended: a falsy override (absent or 0) is ignored in favour of
    the configured [retry_attempts]; a falsy configured value (absent or
    0) is in turn ignored in favour of [this.retryAttempts], which is 3 in
    every world reached from the constructor; a non-zero override, or
    else a non-zero configured value, is the effective count as it is.
    [fetchWithRetry] makes at least one request exactly when the effective
    count is positive. *)
Theorem fetchWithRetry_attempt_count (env : Env) (url : option string)
    (attempts : option Z) (w : World) :
  let l := this w in
  let configured := (config l ≫= cdn_config) ≫= retry_attempts in
  (truthy_num attempts = false →
   maxAttempts_of l attempts = maxAttempts_of l None)
  ∧ (truthy_num attempts = false → truthy_num configured = false →
     maxAttempts_of l attempts = retryAttempts l)
  ∧ (truthy_num attempts = false → truthy_num configured = true →
     Some (maxAttempts_of l attempts) = configured)
  ∧ (truthy_num attempts = true → Some (maxAttempts_of l attempts) = attempts)
  ∧ (Reachable env w → retryAttempts l = 3)
  ∧ ∃ res evs w',
      fetchWithRetry env url attempts w = (Ok res, w')
      ∧ history w' = history w ++ evs
      ∧ ((1 ≤ length (fetches evs))%nat ↔ 0 < maxAttempts_of l attempts).
Proof.
  intros l configured. unfold maxAttempts_of. fold configured.
  splits.
  - intros Ha. unfold or_num. rewrite Ha. reflexivity.
  - intros Ha Hc. unfold or_num. repeat rewrite ?Ha, ?Hc. reflexivity.
  - intros Ha Hc. unfold or_num. repeat rewrite ?Ha, ?Hc.
    destruct configured; [reflexivity | discriminate].
  - intros Ha. unfold or_num. repeat rewrite ?Ha.
    destruct attempts; [reflexivity | discriminate].
  - intros Hreach. apply (Reachable_retry_defaults env w Hreach).
  - destruct (fetchWithRetry_requests env url attempts w)
      as (res & evs & w' & k & Hrun & _ & Hhist & Hf & Hk & Hpos & _).
    exists res, evs, w'. splits; auto.
    rewrite Hf, length_replicate. fold l in Hk, Hpos. unfold maxAttempts_of in *.
    fold configured in Hk, Hpos. lia.
Qed.

(** An override of 0 over a configured 0 gives the constructor's 3. *)
Lemma fetchWithRetry_attempt_count_witness :
  maxAttempts_of (this (world_with (config_with (two_sources "p" "s") (Some 0)) ∅))
    (Some 0) = 3.
Proof.
  apply (proj1 (proj2 (fetchWithRetry_attempt_count env_down (Some "p") (Some 0)
                         (world_with (config_with (two_sources "p" "s") (Some 0)) ∅))));
    reflexivity.
Defined.

(** ** The paths of loadCSS *)

(** The two retry-fetches of the network path, with their events. *)
Lemma loadCSS_miss_inv (env : Env) assetName w c cssConfig res w' :
  config (this w) = Some c →
  lookup_asset c assetName = Some cssConfig →
  check_cache env c assetName w = (Ok None, w) →
  loadCSS env assetName w = (res, w') →
  let N := Z.to_nat (maxAttempts_of (this w) None) in
  ∃ r1 w1 evs1 (k1 : nat),
    fetchWithRetry env (primaryUrl_of cssConfig) None w = (Ok r1, w1)
    ∧ this w1 = this w
    ∧ history w1 = history w ++ evs1
    ∧ fetches evs1 = replicate k1 (primaryUrl_of cssConfig)
    ∧ (k1 ≤ N)%nat
    ∧ (∀ m, In (EvConsole m) evs1 → m ≠ MsgTryingFallback)
    ∧ ((wants_fallback r1 cssConfig = false
        ∧ (res, w') = store_or_fail env assetName r1 w1)
       ∨ (wants_fallback r1 cssConfig = true
          ∧ ∃ r2 w2 evs2 (k2 : nat),
              fetchWithRetry env
                (fallbackUrl_of cssConfig (primaryUrl_of cssConfig)) None
                (world_at_fallback w1) = (Ok r2, w2)
              ∧ this w2 = this w
              ∧ history w2 = history w ++ evs1 ++ [EvConsole MsgTryingFallback] ++ evs2
              ∧ fetches evs2
                = replicate k2 (fallbackUrl_of cssConfig (primaryUrl_of cssConfig))
              ∧ (k2 ≤ N)%nat
              ∧ (res, w') = store_or_fail env assetName r2 w2)).
Proof.
  intros Hc Hcss Hmiss Hload N.
  destruct (fetchWithRetry_requests env (primaryUrl_of cssConfig) None w)
    as (r1 & evs1 & w1 & k1 & Hr1 & Hthis1 & Hhist1 & Hf1 & Hk1 & _ & _ & _ & Hmark1).
  rewrite (loadCSS_miss_cases env _ _ _ _ _ _ Hc Hcss Hmiss Hr1) in Hload.
  exists r1, w1, evs1, k1. splits; auto.
  destruct (wants_fallback r1 cssConfig); [right | left; auto].
  split; [reflexivity|].
  destruct (fetchWithRetry_requests env
              (fallbackUrl_of cssConfig (primaryUrl_of cssConfig)) None
              (world_at_fallback w1))
    as (r2 & evs2 & w2 & k2 & Hr2 & Hthis2 & Hhist2 & Hf2 & Hk2 & _).
  unfold bind in Hload. rewrite Hr2 in Hload.
  exists r2, w2, evs2, k2. splits; auto.
  - rewrite Hthis2. exact Hthis1.
  - rewrite Hhist2. simpl. rewrite Hhist1, <- !app_assoc. reflexivity.
  - simpl in Hk2. rewrite Hthis1 in Hk2. exact Hk2.
Qed.

(** Every call of [loadCSS] takes one of five paths: no configuration,
    no entry for the name, a cache check that throws, a cache hit, or the
    network path. *)
Lemma loadCSS_inv (env : Env) assetName w res w' :
  loadCSS env assetName w = (res, w') →
  (config (this w) = None ∧ res = Throw err_not_loaded ∧ w' = w)
  ∨ (∃ c e, config (this w) = Some c ∧ lookup_asset c assetName = None
            ∧ lookup_error c assetName e ∧ res = Throw e ∧ w' = w)
  ∨ (∃ c cssConfig cached,
       config (this w) = Some c ∧ lookup_asset c assetName = Some cssConfig
       ∧ cache (this w) !! cacheKey_of assetName = Some cached
       ∧ cdn_config c = None
       ∧ res = Throw (err_undefined_property "cache_duration") ∧ w' = w)
  ∨ (∃ c cssConfig cached cdn,
       config (this w) = Some c ∧ lookup_asset c assetName = Some cssConfig
       ∧ cache (this w) !! cacheKey_of assetName = Some cached
       ∧ cdn_config c = Some cdn
       ∧ lt_num (clock env (history w) - timestamp cached) (cache_duration cdn) = true
       ∧ res = Ok (content cached)
       ∧ w' = {| this := this w;
                 history := history w ++ [EvConsole (MsgUsingCached assetName)] |})
  ∨ (∃ c cssConfig,
       config (this w) = Some c ∧ lookup_asset c assetName = Some cssConfig
       ∧ check_cache env c assetName w = (Ok None, w)).
Proof.
  intros Hload.
  destruct (config (this w)) as [c|] eqn:Hc.
  2:{ rewrite (loadCSS_not_loaded env assetName w Hc) in Hload.
      injection Hload as <- <-. left. auto. }
  destruct (lookup_asset c assetName) as [cssConfig|] eqn:Hcss.
  2:{ destruct (loadCSS_lookup_error env assetName w c Hc Hcss) as (e & He & Herr).
      rewrite He in Hload. injection Hload as <- <-.
      right. left. exists c, e. auto. }
  right. right.
  pose proof (check_cache_run env c assetName w) as Hcheck.
  rewrite (loadCSS_found env _ _ _ _ Hc Hcss) in Hload.
  unfold bind at 1 in Hload.
  destruct (cache (this w) !! cacheKey_of assetName) as [cached|] eqn:Hcache.
  2:{ right. right. exists c, cssConfig. auto. }
  destruct (cdn_config c) as [cdn|] eqn:Hcdn.
  - destruct (lt_num _ _) eqn:Hlt.
    + rewrite Hcheck in Hload. injection Hload as <- <-.
      right. left. exists c, cssConfig, cached, cdn. splits; auto.
    + right. right. exists c, cssConfig. auto.
  - rewrite Hcheck in Hload. injection Hload as <- <-.
    left. exists c, cssConfig, cached. splits; auto.
Qed.





(** ** Further properties of fetchWithRetry *)





(** X3: one call of [fetchWithRetry] requests nothing but the URL it was
    given, at most [maxAttempts] times (never when that count is zero or
    negative), and leaves the loader as it was. *)
Theorem fetchWithRetry_requests_bound (env : Env) (url : option string)
    (attempts : option Z) (w : World) :
  ∃ res evs w',
    fetchWithRetry env url attempts w = (Ok res, w')
    ∧ this w' = this w
    ∧ history w' = history w ++ evs
    ∧ Forall (λ u, u = url) (fetches evs)
    ∧ (length (fetches evs) ≤ Z.to_nat (maxAttempts_of (this w) attempts))%nat.
Proof.
  destruct (fetchWithRetry_requests env url attempts w)
    as (res & evs & w' & k & Hrun & Hthis & Hhist & Hf & Hk & _).
  exists res, evs, w'. splits; auto.
  - rewrite Hf. apply Forall_forall. intros u Hu.
    apply elem_of_replicate in Hu. tauto.
  - rewrite Hf, length_replicate. exact Hk.
Qed.

(** ** Further properties of loadCSS *)

Lemma store_or_fail_history (env : Env) assetName r w res w' :
  (res, w') = store_or_fail env assetName r w →
  ∃ tl, history w' = history w ++ tl ∧ fetches tl = []
        ∧ ∀ m, In (EvConsole m) tl → m ≠ MsgTryingFallback.
Proof.
  rewrite store_or_fail_run. intros E.
  destruct r as [body|]; [destruct (truthy_str (Some body))|];
    injection E as -> ->.
  - exists [EvConsole (MsgCssLoaded assetName)]. splits; auto.
    intros m [Hm|[]]. injection Hm as <-. discriminate.
  - exists []. rewrite app_nil_r. splits; auto; intros m [].
  - exists []. rewrite app_nil_r. splits; auto; intros m [].
Qed.

Lemma primaryUrl_of_cases cssConfig :
  primaryUrl_of cssConfig = github_raw cssConfig
  ∨ primaryUrl_of cssConfig = github_pages cssConfig.
Proof. unfold primaryUrl_of, or_str. destruct (truthy_str _); auto. Qed.

Lemma fallbackUrl_of_cases cssConfig u :
  fallbackUrl_of cssConfig u = github_raw cssConfig
  ∨ fallbackUrl_of cssConfig u = github_pages cssConfig.
Proof. unfold fallbackUrl_of. destruct (decide _); auto. Qed.

Lemma wants_fallback_both r cssConfig :
  wants_fallback r cssConfig = true →
  truthy_str (github_raw cssConfig) && truthy_str (github_pages cssConfig) = true.
Proof.
  unfold wants_fallback. intros H.
  apply andb_true_iff in H as [H Hraw]. apply andb_true_iff in H as [_ Hpages].
  rewrite Hraw, Hpages. reflexivity.
Qed.

(** The requests of one call of [loadCSS], by the entry that line 52 reads. *)
Lemma loadCSS_requests (env : Env) (assetName : string) (w : World) :
  let N := Z.to_nat (maxAttempts_of (this w) None) in
  ∃ evs,
    history (snd (loadCSS env assetName w)) = history w ++ evs
    ∧ (length (fetches evs) ≤ 2 * N)%nat
    ∧ match config (this w) ≫= (λ c, lookup_asset c assetName) with
      | None => fetches evs = []
      | Some cssConfig =>
          Forall (λ u, u = github_raw cssConfig ∨ u = github_pages cssConfig)
                 (fetches evs)
          ∧ (truthy_str (github_raw cssConfig)
             && truthy_str (github_pages cssConfig) = false →
             (length (fetches evs) ≤ N)%nat
             ∧ Forall (λ u, u = primaryUrl_of cssConfig) (fetches evs)
             ∧ ¬ In (EvConsole MsgTryingFallback) evs)
      end.
Proof.
  intros N. destruct (loadCSS env assetName w) as [res w'] eqn:Hload. simpl.
  destruct (loadCSS_inv env _ _ _ _ Hload)
    as [(Hc & _ & ->)|[(c & e & Hc & Hcss & _ & _ & ->)
       |[(c & cssConfig & cached & Hc & Hcss & _ & _ & _ & ->)
        |[(c & cssConfig & cached & cdn & Hc & Hcss & _ & _ & _ & _ & ->)
         |(c & cssConfig & Hc & Hcss & Hmiss)]]]].
  - exists []. rewrite app_nil_r, Hc. simpl. splits; auto. lia.
  - exists []. rewrite app_nil_r, Hc. simpl. rewrite Hcss. splits; auto. lia.
  - exists []. rewrite app_nil_r, Hc. simpl. rewrite Hcss.
    splits; auto; try (simpl; lia). intros _. splits; auto. simpl. lia.
  - eexists. split; [reflexivity|]. rewrite Hc. simpl. rewrite Hcss.
    splits; auto; try (simpl; lia).
    intros _. splits; auto; [simpl; lia|].
    intros [E|[]]. discriminate.
  - rewrite Hc. simpl. rewrite Hcss.
    destruct (loadCSS_miss_inv env _ _ _ _ _ _ Hc Hcss Hmiss Hload)
      as (r1 & w1 & evs1 & k1 & Hr1 & _ & Hhist1 & Hf1 & Hk1 & Hmark1 & Hrest).
    fold N in Hk1, Hrest.
    assert (Hprim : Forall (λ u, u = github_raw cssConfig ∨ u = github_pages cssConfig)
                      (replicate k1 (primaryUrl_of cssConfig))).
    { apply Forall_forall. intros u Hu. apply elem_of_replicate in Hu as [-> _].
      apply primaryUrl_of_cases. }
    destruct Hrest as [(Hwant & Hfinal)
                      |(Hwant & r2 & w2 & evs2 & k2 & _ & _ & Hhist2 & Hf2 & Hk2 & Hfinal)].
    + destruct (store_or_fail_history env _ _ _ _ _ Hfinal) as (tl & Htl & Hftl & Hmtl).
      exists (evs1 ++ tl). rewrite Htl, Hhist1, <- app_assoc.
      split; [reflexivity|]. rewrite fetches_app, Hf1, Hftl, app_nil_r, length_replicate.
      splits; auto; [lia|]. intros _. splits; auto.
      * apply Forall_forall. intros u Hu. apply elem_of_replicate in Hu. tauto.
      * intros Hin. apply in_app_or in Hin as [Hin|Hin];
          [exact (Hmark1 _ Hin eq_refl) | exact (Hmtl _ Hin eq_refl)].
    + destruct (store_or_fail_history env _ _ _ _ _ Hfinal) as (tl & Htl & Hftl & _).
      exists (evs1 ++ [EvConsole MsgTryingFallback] ++ evs2 ++ tl).
      rewrite Htl, Hhist2, <- !app_assoc. split; [reflexivity|].
      rewrite !fetches_app, Hf1, Hf2, Hftl, app_nil_r. simpl.
      rewrite length_app, !length_replicate.
      splits; [lia | |].
      * apply Forall_app. split; [exact Hprim|].
        apply Forall_forall. intros u Hu. apply elem_of_replicate in Hu as [-> _].
        apply fallbackUrl_of_cases.
      * intros Hone. rewrite (wants_fallback_both _ _ Hwant) in Hone. discriminate.
Qed.

(** X4: the network cost of one call of [loadCSS] is bounded: at most
    [2 * maxAttempts] requests, each one to the [github_raw] or
    [github_pages] value of the entry that line 52 reads, and at most
    [maxAttempts], all to the primary URL and without the fallback line,
    unless both sources are configured.  For a name that [assets.css]
    does not list, the entry is the member of [Object.prototype] of that
    name, if there is one: it has no URL, and the requests, at most
    [maxAttempts], go out for the URL [undefined]; a name that is neither
    listed nor inherited makes no request.  There is no request either
    without a configuration or without [assets.css]. *)
Theorem loadCSS_request_bound (env : Env) (assetName : string) (w : World) :
  let N := Z.to_nat (maxAttempts_of (this w) None) in
  ∃ evs,
    history (snd (loadCSS env assetName w)) = history w ++ evs
    ∧ (length (fetches evs) ≤ 2 * N)%nat
    ∧ match config (this w) ≫= (λ c, lookup_asset c assetName) with
      | None => fetches evs = []
      | Some cssConfig =>
          Forall (λ u, u = github_raw cssConfig ∨ u = github_pages cssConfig)
                 (fetches evs)
          ∧ (truthy_str (github_raw cssConfig)
             && truthy_str (github_pages cssConfig) = false →
             (length (fetches evs) ≤ N)%nat
             ∧ Forall (λ u, u = primaryUrl_of cssConfig) (fetches evs)
             ∧ ¬ In (EvConsole MsgTryingFallback) evs)
      end
    ∧ (config (this w) = None → fetches evs = [])
    ∧ (∀ c, config (this w) = Some c → (assets c ≫= css) = None →
            fetches evs = [])
    ∧ (∀ c o, config (this w) = Some c → (assets c ≫= css) = Some o →
              o !! assetName = None →
              if bool_decide (assetName ∈ Object_prototype_names)
              then Forall (λ u, u = None) (fetches evs)
                   ∧ (length (fetches evs) ≤ N)%nat
              else fetches evs = []).
Proof.
  intros N. destruct (loadCSS_requests env assetName w) as (evs & Hhist & Hlen & Hm).
  fold N in Hlen, Hm. exists evs. splits; auto.
  - intros Hc. rewrite Hc in Hm. exact Hm.
  - intros c Hc Hcss. rewrite Hc in Hm. simpl in Hm.
    unfold lookup_asset in Hm. rewrite Hcss in Hm. exact Hm.
  - intros c o Hc Hcss Hown. rewrite Hc in Hm. simpl in Hm.
    unfold lookup_asset in Hm. rewrite Hcss in Hm. simpl in Hm.
    unfold get_property in Hm. rewrite Hown in Hm.
    destruct (bool_decide (assetName ∈ Object_prototype_names)); [|exact Hm].
    destruct Hm as (_ & Hone). destruct (Hone eq_refl) as (Hle & Hall & _).
    split; assumption.
Qed.

Lemma cacheKey_of_inj a b : cacheKey_of a = cacheKey_of b → a = b.
Proof. unfold cacheKey_of. simpl. intros E. injection E. auto. Qed.

(** X5: [loadCSS] touches nothing but the cache entry of its own asset:
    the configuration and the retry defaults stay, and every other cache
    key reads as before; different asset names have different keys. *)
Theorem loadCSS_cache_frame (env : Env) (assetName : string) (w : World) :
  let l' := this (snd (loadCSS env assetName w)) in
  config l' = config (this w)
  ∧ retryAttempts l' = retryAttempts (this w)
  ∧ retryDelay l' = retryDelay (this w)
  ∧ (∀ key, key ≠ cacheKey_of assetName → cache l' !! key = cache (this w) !! key)
  ∧ (∀ other, other ≠ assetName →
              cache l' !! cacheKey_of other = cache (this w) !! cacheKey_of other).
Proof.
  intros l'. subst l'.
  destruct (loadCSS env assetName w) as [res w'] eqn:Hload. simpl.
  assert (H : config (this w') = config (this w)
              ∧ retryAttempts (this w') = retryAttempts (this w)
              ∧ retryDelay (this w') = retryDelay (this w)
              ∧ ∀ key, key ≠ cacheKey_of assetName →
                       cache (this w') !! key = cache (this w) !! key).
  { destruct (loadCSS_this env _ _ _ _ Hload) as [->|(body & w2 & _ & Hw2 & ->)].
    - splits; auto.
    - simpl. rewrite Hw2. splits; auto.
      intros key Hkey. apply lookup_insert_ne. congruence. }
  destruct H as (H1 & H2 & H3 & H4). splits; auto.
  intros other Hother. apply H4. intros E. apply Hother.
  symmetry. exact (cacheKey_of_inj _ _ (eq_sym E)).
Qed.



Lemma loadCSS_type_error (env : Env) assetName w c cssConfig cached :
  config (this w) = Some c →
  lookup_asset c assetName = Some cssConfig →
  cache (this w) !! cacheKey_of assetName = Some cached →
  cdn_config c = None →
  loadCSS env assetName w = (Throw (err_undefined_property "cache_duration"), w).
Proof.
  intros Hc Hcss Hcache Hcdn. rewrite (loadCSS_found env _ _ _ _ Hc Hcss).
  unfold bind. rewrite check_cache_run, Hcache, Hcdn.
  reflexivity.
Qed.

(** X7: a configuration without [cdn_config] works once per asset.  The
    first load runs (the retry parameters fall back to the loader's own),
    but as soon as a load of the asset has returned, every later load of
    it throws a [TypeError], before any request, until the cache is
    cleared: the cache check reads [cdn_config.cache_duration] without
    the guard that [fetchWithRetry] uses. *)
Theorem loadCSS_without_cdn_config (env : Env) (assetName : string)
    (w w1 : World) (c : Config) (body : string) :
  config (this w) = Some c →
  cdn_config c = None →
  loadCSS env assetName w = (Ok body, w1) →
  maxAttempts_of (this w) None = retryAttempts (this w)
  ∧ delay_of (this w) = retryDelay (this w)
  ∧ ∀ w2, this w2 = this w1 →
          loadCSS env assetName w2
          = (Throw (err_undefined_property "cache_duration"), w2).
Proof.
  intros Hc Hcdn Hload. splits.
  - unfold maxAttempts_of. rewrite Hc. simpl. rewrite Hcdn. reflexivity.
  - unfold delay_of. rewrite Hc. simpl. rewrite Hcdn. reflexivity.
  - intros w2 Hthis.
    destruct (loadCSS_ok_cached env _ _ _ _ Hload)
      as (Hcfg & (c' & cssConfig & Hc' & Hcss) & entry & Hentry & _).
    assert (c' = c) by congruence. subst c'.
    apply (loadCSS_type_error env assetName w2 c cssConfig entry);
      rewrite ?Hthis; congruence.
Qed.

(** The first load succeeds with the loader's 3 attempts; the second throws. *)
Lemma loadCSS_without_cdn_config_witness :
  fst (loadCSS env_up "popup" world_no_cdn) = Ok "css"
  ∧ loadCSS env_up "popup" (snd (loadCSS env_up "popup" world_no_cdn))
    = (Throw (TypeError "Cannot read properties of undefined (reading 'cache_duration')"),
       snd (loadCSS env_up "popup" world_no_cdn)).
Proof.
  split; [vm_compute; reflexivity|].
  destruct (loadCSS_without_cdn_config env_up "popup" world_no_cdn
              (snd (loadCSS env_up "popup" world_no_cdn)) config_no_cdn "css")
    as (_ & _ & Hlater);
    [reflexivity | reflexivity | vm_compute; reflexivity | apply Hlater; reflexivity].
Defined.

(** The console lines of a call of [fetchWithRetry] are its own three. *)
Lemma fetchWithRetry_console (env : Env) url attempts w r w' evs :
  fetchWithRetry env url attempts w = (Ok r, w') →
  history w' = history w ++ evs →
  ∀ m, In (EvConsole m) evs →
       match m with
       | MsgFetching _ _ _ | MsgHttpStatus _ _ | MsgFetchError _ _ => True
       | _ => False
       end.
Proof.
  intros Hr Hhist.
  destruct (fetchWithRetry_run env url attempts w)
    as (r' & evs' & w'' & Hr' & _ & Hhist' & Hatt).
  rewrite Hr in Hr'. injection Hr' as <- <-.
  rewrite Hhist in Hhist'. apply app_inv_head in Hhist'. subst evs'.
  exact (Attempts_console _ _ _ _ _ _ _ _ Hatt).
Qed.

Lemma store_or_fail_console (env : Env) assetName r w res w' :
  (res, w') = store_or_fail env assetName r w →
  ∃ tl, history w' = history w ++ tl
        ∧ ∀ m, In (EvConsole m) tl → m = MsgCssLoaded assetName.
Proof.
  rewrite store_or_fail_run. intros E.
  destruct r as [body|]; [destruct (truthy_str (Some body))|];
    injection E as -> ->.
  - exists [EvConsole (MsgCssLoaded assetName)]. split; [reflexivity|].
    intros m [Hm|[]]. injection Hm as <-. reflexivity.
  - exists []. rewrite app_nil_r. split; [reflexivity | intros m []].
  - exists []. rewrite app_nil_r. split; [reflexivity | intros m []].
Qed.

(** On the network path the cache-hit line is never printed. *)
Lemma loadCSS_miss_console (env : Env) assetName w c cssConfig res w' :
  config (this w) = Some c →
  lookup_asset c assetName = Some cssConfig →
  check_cache env c assetName w = (Ok None, w) →
  loadCSS env assetName w = (res, w') →
  ¬ In (EvConsole (MsgUsingCached assetName))
       (drop (length (history w)) (history w')).
Proof.
  intros Hc Hcss Hmiss Hload.
  destruct (loadCSS_miss_inv env _ _ _ _ _ _ Hc Hcss Hmiss Hload)
    as (r1 & w1 & evs1 & k1 & Hr1 & _ & Hhist1 & _ & _ & _ & Hrest).
  pose proof (fetchWithRetry_console env _ _ _ _ _ _ Hr1 Hhist1) as Hcons1.
  destruct Hrest as [(_ & Hfinal)
                    |(_ & r2 & w2 & evs2 & k2 & Hr2 & _ & Hhist2 & _ & _ & Hfinal)].
  - destruct (store_or_fail_console env _ _ _ _ _ Hfinal) as (tl & -> & Htl).
    rewrite Hhist1, <- app_assoc, drop_app_length.
    intros Hin. apply in_app_or in Hin as [Hin|Hin].
    + exact (Hcons1 _ Hin).
    + specialize (Htl _ Hin). discriminate.
  - assert (Hhist2' : history w2 = history (world_at_fallback w1) ++ evs2).
    { rewrite Hhist2. simpl. rewrite Hhist1, <- !app_assoc. reflexivity. }
    pose proof (fetchWithRetry_console env _ _ _ _ _ _ Hr2 Hhist2') as Hcons2.
    destruct (store_or_fail_console env _ _ _ _ _ Hfinal) as (tl & -> & Htl).
    rewrite Hhist2, <- !app_assoc, drop_app_length.
    intros Hin. rewrite !in_app_iff in Hin.
    destruct Hin as [Hin|[[E|[]]|[Hin|Hin]]].
    + exact (Hcons1 _ Hin).
    + discriminate.
    + exact (Hcons2 _ Hin).
    + specialize (Htl _ Hin). discriminate.
Qed.

(** X8: when [cdn_config] has no [cache_duration] the cache is never
    read back: whatever it holds, [loadCSS] takes the network path, so it
    cannot return without a request and makes one whenever the effective
    attempt count is positive. *)
Theorem loadCSS_without_cache_duration (env : Env) (assetName : string)
    (w : World) (c : Config) (cssConfig : CssConfig) (cdn : CdnConfig) :
  config (this w) = Some c →
  lookup_asset c assetName = Some cssConfig →
  cdn_config c = Some cdn →
  cache_duration cdn = None →
  let evs := drop (length (history w)) (history (snd (loadCSS env assetName w))) in
  ¬ In (EvConsole (MsgUsingCached assetName)) evs
  ∧ (fetches evs = [] →
     fst (loadCSS env assetName w) = Throw (err_failed assetName))
  ∧ (0 < maxAttempts_of (this w) None → fetches evs ≠ []).
Proof.
  intros Hc Hcss Hcdn Hdur evs. subst evs.
  assert (Hmiss : check_cache env c assetName w = (Ok None, w)).
  { rewrite check_cache_run, Hcdn, Hdur. simpl.
    destruct (cache (this w) !! cacheKey_of assetName); reflexivity. }
  destruct (loadCSS env assetName w) as [res w'] eqn:Hload. simpl.
  destruct (loadCSS_miss_requests env _ _ _ _ _ _ Hc Hcss Hmiss Hload) as [Hpos Hnone].
  splits; auto.
  exact (loadCSS_miss_console env _ _ _ _ _ _ Hc Hcss Hmiss Hload).
Qed.

(** A fresh-looking entry is ignored: the call requests the primary URL. *)
Lemma loadCSS_without_cache_duration_witness :
  fetches (drop 0 (history (snd (loadCSS env_up "popup" world_no_duration)))) ≠ [].
Proof.
  destruct (loadCSS_without_cache_duration env_up "popup" world_no_duration
              config_no_duration (two_sources "p" "s")
              {| primary_host := None; cache_duration := None;
                 retry_attempts := Some 2; retry_delay := Some 500 |})
    as (_ & _ & Hpos);
    [reflexivity | vm_compute; reflexivity | reflexivity | reflexivity
    | apply Hpos; reflexivity].
Defined.

(** ** What the methods do to the loader *)

Lemma loadCSS_this_strong (env : Env) assetName w res w' :
  loadCSS env assetName w = (res, w') →
  (this w' = this w ∧ ∃ evs, history w' = history w ++ evs)
  ∨ ∃ body w2 evs2,
      res = Ok body ∧ body ≠ "" ∧ this w2 = this w
      ∧ history w2 = history w ++ evs2
      ∧ w' = world_after_store env assetName body w2.
Proof.
  intros Hload.
  destruct (loadCSS_inv env _ _ _ _ Hload)
    as [(_ & _ & ->)|[(c & e0 & _ & _ & _ & _ & ->)
       |[(c & cssConfig & cached & _ & _ & _ & _ & _ & ->)
        |[(c & cssConfig & cached & cdn & _ & _ & _ & _ & _ & _ & ->)
         |(c & cssConfig & Hc & Hcss & Hmiss)]]]];
    try (left; split; [reflexivity | exists []; rewrite app_nil_r; reflexivity]).
  - left. split; [reflexivity | eexists; reflexivity].
  - destruct (loadCSS_miss_inv env _ _ _ _ _ _ Hc Hcss Hmiss Hload)
      as (r1 & w1 & evs1 & k1 & _ & Hthis1 & Hhist1 & _ & _ & _ & Hrest).
    assert (Hfin : ∃ r w2 evs2, this w2 = this w ∧ history w2 = history w ++ evs2
                                ∧ (res, w') = store_or_fail env assetName r w2).
    { destruct Hrest as [(_ & Hfinal)
                        |(_ & r2 & w2 & evs2 & k2 & _ & Hthis2 & Hhist2 & _ & _ & Hfinal)].
      - exists r1, w1, evs1. auto.
      - exists r2, w2, (evs1 ++ [EvConsole MsgTryingFallback] ++ evs2). auto. }
    destruct Hfin as (r & w2 & evs2 & Hthis2 & Hhist2 & Hfinal).
    destruct (truthy_str r) eqn:Ht.
    + destruct (store_or_fail_truthy env assetName r w2 Ht) as (body & -> & Hne & Hs).
      rewrite Hs in Hfinal. injection Hfinal as -> ->.
      right. exists body, w2, evs2. splits; auto.
    + rewrite (store_or_fail_falsy env _ _ _ Ht) in Hfinal.
      injection Hfinal as -> ->. left. split; [exact Hthis2 | eauto].
Qed.

Lemma cache_infos_run (env : Env) entries w :
  cache_infos env entries w
  = (Ok (map (λ kv, {| info_key := fst kv;
                       info_size := js_length (content (snd kv));
                       info_age := clock env (history w) - timestamp (snd kv) |})
             entries), w).
Proof.
  induction entries as [|[key value] rest IH]; [reflexivity|].
  simpl. unfold bind, date_now. rewrite IH. reflexivity.
Qed.

Lemma getCacheInfo_run (env : Env) w :
  getCacheInfo env w
  = (Ok (map (λ kv, {| info_key := fst kv;
                       info_size := js_length (content (snd kv));
                       info_age := clock env (history w) - timestamp (snd kv) |})
             (map_to_list (cache (this w)))), w).
Proof. unfold getCacheInfo, bind, get_this. apply cache_infos_run. Qed.

Lemma loadConfig_run (env : Env) configUrl w :
  ∃ v evs,
    loadConfig env configUrl w
    = (Ok v, {| this := {| config := as_config v; cache := cache (this w);
                           retryAttempts := retryAttempts (this w);
                           retryDelay := retryDelay (this w) |};
                history := history w ++ EvFetch (Some configUrl) :: evs |})
    ∧ evs = match net env (history w) (Some configUrl) with
            | Resolved r =>
                if ok r then
                  match json r with
                  | Some _ => [EvConsole MsgConfigLoaded]
                  | None => [EvConsole (MsgConfigFailed
                                          (SyntaxError "Unexpected token in JSON"))]
                  end
                else []
            | Rejected e => [EvConsole (MsgConfigFailed e)]
            end.
Proof.
  mrun. destruct (net env (history w) (Some configUrl)) as [e|r]; simpl.
  - exists (JsonObject default_config). eexists.
    split; [|reflexivity]. rewrite <- app_assoc. reflexivity.
  - destruct (ok r); simpl.
    + destruct (json r) as [v|]; simpl;
        [exists v | exists (JsonObject default_config)]; eexists;
        (split; [|reflexivity]); rewrite <- app_assoc; reflexivity.
    + exists (JsonObject default_config). eexists. split; reflexivity.
Qed.

Lemma checkForUpdates_history (env : Env) w :
  ∃ evs, history (snd (checkForUpdates env w)) = history w ++ evs
         ∧ (fetches evs = []
            ∨ ∃ c, config (this w) = Some c
                   ∧ fetches evs = [update_check_url c])
         ∧ sleeps evs = [].
Proof.
  mrun. destruct (config (this w)) as [c|]; simpl;
    [|exists []; rewrite app_nil_r; auto].
  destruct (truthy_str (update_check_url c)); simpl;
    [|exists []; rewrite app_nil_r; auto].
  destruct (net env (history w) (update_check_url c)) as [e|r]; simpl.
  - eexists. rewrite <- app_assoc. split; [reflexivity|]. simpl. eauto.
  - destruct (ok r); simpl.
    + destruct (json r) as [[|t|o]|]; simpl; eexists; rewrite <- ?app_assoc;
        (split; [reflexivity|]); simpl; eauto.
    + eexists. split; [reflexivity|]. simpl. eauto.
Qed.

(** What one method call does: the history grows, and the loader is
    unchanged, or has its configuration assigned, or gets one cache entry
    with a non-empty content stamped at a past clock reading, or loses all
    its cache entries. *)
Lemma Call_inv (env : Env) w w' :
  Call env w w' →
  (∃ evs, history w' = history w ++ evs)
  ∧ retryAttempts (this w') = retryAttempts (this w)
  ∧ retryDelay (this w') = retryDelay (this w)
  ∧ (this w' = this w
     ∨ ((∃ configUrl, w' = snd (loadConfig env configUrl w))
        ∧ cache (this w') = cache (this w))
     ∨ (config (this w') = config (this w)
        ∧ ∃ assetName body h tl,
            body ≠ "" ∧ history w' = h ++ tl
            ∧ (∃ evs2, h = history w ++ evs2)
            ∧ cache (this w')
              = <[cacheKey_of assetName :=
                    {| content := body; timestamp := clock env h |}]> (cache (this w)))
     ∨ (w' = snd (clearCache w)
        ∧ config (this w') = config (this w) ∧ cache (this w') = ∅)).
Proof.
  intros [w0 configUrl|w0 assetName|w0 url attempts|w0|w0|w0].
  - destruct (loadConfig_run env configUrl w0) as (c & evs & Hrun & _).
    rewrite Hrun. simpl. splits; eauto.
    right. left. split; [|reflexivity]. exists configUrl. rewrite Hrun.
    reflexivity.
  - destruct (loadCSS env assetName w0) as [res w1] eqn:Hload. simpl.
    destruct (loadCSS_this_strong env _ _ _ _ Hload)
      as [(-> & evs & ->)|(body & w2 & evs2 & _ & Hne & Hthis2 & Hhist2 & ->)].
    + splits; eauto.
    + simpl. rewrite Hthis2, Hhist2. splits; eauto.
      * eexists. rewrite <- app_assoc. reflexivity.
      * right. right. left. split; [reflexivity|].
        exists assetName, body, (history w0 ++ evs2),
          [EvConsole (MsgCssLoaded assetName)].
        splits; eauto.
  - destruct (fetchWithRetry_run env url attempts w0)
      as (res & evs & w1 & Hrun & Hthis & Hhist & _).
    rewrite Hrun. simpl. rewrite Hthis, Hhist. splits; eauto.
  - rewrite checkForUpdates_this.
    destruct (checkForUpdates_history env w0) as (evs & -> & _). splits; eauto.
  - splits; [eexists; reflexivity | reflexivity | reflexivity
            | do 3 right; splits; reflexivity].
  - rewrite getCacheInfo_run. simpl. splits; auto.
    exists []. rewrite app_nil_r. reflexivity.
Qed.

(** ** Invariants of a running loader *)

Lemma Call_cache_wellformed (env : Env) w w' :
  Call env w w' → cache_wellformed env w → cache_wellformed env w'.
Proof.
  intros Hcall Hinv.
  destruct (Call_inv env w w' Hcall) as ((evs & Hhist) & _ & _ & Hthis).
  assert (Hold : ∀ key entry,
            cache (this w) !! key = Some entry →
            content entry ≠ ""
            ∧ (∃ assetName, key = cacheKey_of assetName)
            ∧ ∃ h tl, history w' = h ++ tl ∧ timestamp entry = clock env h).
  { intros key entry Hlook.
    destruct (Hinv key entry Hlook) as (Hne & Hkey & h & tl & Hh & Hts).
    splits; auto. exists h, (tl ++ evs). rewrite Hhist, Hh, <- app_assoc. auto. }
  intros key entry Hlook.
  destruct Hthis as [Hsame|[(_ & Hcache)
                    |[(_ & assetName & body & h & tl & Hne & Hh & _ & Hcache)
                     |(_ & _ & Hcache)]]].
  - rewrite Hsame in Hlook. auto.
  - rewrite Hcache in Hlook. auto.
  - rewrite Hcache in Hlook.
    destruct (decide (cacheKey_of assetName = key)) as [<-|Hkey].
    + rewrite lookup_insert_eq in Hlook. injection Hlook as <-. simpl.
      splits; eauto.
    + rewrite lookup_insert_ne in Hlook by exact Hkey. auto.
  - rewrite Hcache, lookup_empty in Hlook. discriminate.
Qed.

Lemma rtc_Call_cache_wellformed (env : Env) w :
  rtc (Call env) world_new w → cache_wellformed env w.
Proof.
  intros Hrtc.
  refine (rtc_ind_r (cache_wellformed env) world_new _ _ w Hrtc).
  - intros key entry Hlook. simpl in Hlook. rewrite lookup_empty in Hlook.
    discriminate.
  - intros y z _ Hcall IH. eapply Call_cache_wellformed; eauto.
Qed.

(** X9: in every world reached from a new loader by calling its methods,
    each cache entry has a key of the form ["css_" + assetName], a
    non-empty content, and a timestamp that was read from the clock at an
    earlier point of the history. *)
Theorem cache_entries_wellformed (env : Env) (w : World) (key : string)
    (entry : CacheEntry) :
  rtc (Call env) world_new w →
  cache (this w) !! key = Some entry →
  content entry ≠ ""
  ∧ (∃ assetName, key = "css_" +:+ assetName)
  ∧ ∃ h tl, history w = h ++ tl ∧ timestamp entry = clock env h.
Proof.
  intros Hrtc Hlook. exact (rtc_Call_cache_wellformed env w Hrtc key entry Hlook).
Qed.

(** [loadConfig] (falling back to the default) then [loadCSS "popup"]. *)
Lemma cache_entries_wellformed_witness :
  cache (this (snd (loadCSS env_up "popup" (snd (loadConfig env_up "cfg" world_new)))))
    !! "css_popup" = Some {| content := "css"; timestamp := 4 |}
  ∧ content {| content := "css"; timestamp := 4 |} ≠ "".
Proof.
  pose (w1 := snd (loadConfig env_up "cfg" world_new)).
  pose (w2 := snd (loadCSS env_up "popup" w1)).
  assert (Hlook : cache (this w2) !! "css_popup"
                  = Some {| content := "css"; timestamp := 4 |})
    by (vm_compute; reflexivity).
  split; [exact Hlook|].
  destruct (cache_entries_wellformed env_up w2 "css_popup"
              {| content := "css"; timestamp := 4 |}) as (Hne & _).
  - eapply rtc_l; [apply Call_loadConfig|].
    eapply rtc_l; [apply Call_loadCSS|]. apply rtc_refl.
  - exact Hlook.
  - exact Hne.
Defined.

(** X10: a loader that was only ever driven through its methods never
    returns an empty stylesheet: whatever [loadCSS] returns, from the
    cache or from the network, is a non-empty string. *)
Theorem loadCSS_never_returns_empty (env : Env) (assetName : string)
    (w w' : World) (body : string) :
  rtc (Call env) world_new w →
  loadCSS env assetName w = (Ok body, w') →
  body ≠ "".
Proof.
  intros Hrtc Hload.
  destruct (loadCSS_inv env _ _ _ _ Hload)
    as [(_ & E & _)|[(c & e0 & _ & _ & _ & E & _)
       |[(c & cssConfig & cached & _ & _ & _ & _ & E & _)
        |[(c & cssConfig & cached & cdn & _ & _ & Hcache & _ & _ & E & _)
         |(c & cssConfig & Hc & Hcss & Hmiss)]]]]; try discriminate.
  - injection E as ->.
    exact (proj1 (rtc_Call_cache_wellformed env w Hrtc _ _ Hcache)).
  - destruct (loadCSS_this_strong env _ _ _ _ Hload)
      as [(Hthis & _)|(body' & w2 & evs2 & E & Hne & _)];
      [|injection E as ->; exact Hne].
    destruct (loadCSS_miss_final env _ _ _ _ Hc Hcss Hmiss)
      as (r1 & w1 & r & w2 & _ & _ & _ & Hfinal).
    rewrite Hfinal in Hload.
    destruct (truthy_str r) eqn:Ht.
    + destruct (store_or_fail_truthy env assetName r w2 Ht) as (b & -> & Hne & Hs).
      rewrite Hs in Hload. injection Hload as <- _. exact Hne.
    + rewrite (store_or_fail_falsy env _ _ _ Ht) in Hload. discriminate.
Qed.

(** The default configuration, then a load that returns "css". *)
Lemma loadCSS_never_returns_empty_witness :
  fst (loadCSS env_up "popup" (snd (loadConfig env_up "cfg" world_new))) = Ok "css"
  ∧ "css" ≠ "".
Proof.
  split; [vm_compute; reflexivity|].
  apply (loadCSS_never_returns_empty env_up "popup"
           (snd (loadConfig env_up "cfg" world_new))
           (snd (loadCSS env_up "popup" (snd (loadConfig env_up "cfg" world_new))))).
  - eapply rtc_l; [apply Call_loadConfig | apply rtc_refl].
  - vm_compute. reflexivity.
Defined.

Lemma Use_config (env : Env) w w' :
  Use env w w' → config (this w') = config (this w).
Proof.
  intros [w0 assetName|w0 url attempts|w0|w0|w0].
  - destruct (loadCSS env assetName w0) as [res w1] eqn:Hload. simpl.
    destruct (loadCSS_this env _ _ _ _ Hload) as [->|(body & w2 & _ & Hw2 & ->)];
      [reflexivity | simpl; rewrite Hw2; reflexivity].
  - destruct (fetchWithRetry_run env url attempts w0)
      as (res & evs & w1 & Hrun & Hthis & _).
    rewrite Hrun. simpl. rewrite Hthis. reflexivity.
  - rewrite checkForUpdates_this. reflexivity.
  - reflexivity.
  - rewrite getCacheInfo_run. reflexivity.
Qed.

(** X11: only [loadConfig] assigns the configuration.  Whatever calls of
    the other methods are made, [config] stays what it was: a
    configuration that is set stays set, and [loadCSS] cannot fail with
    "Config not loaded".  A call of [loadConfig] leaves the loader
    without a configuration exactly when its request is answered 2xx
    with a body that decodes to a falsy value ([null], [false], [0] or
    [""]), whatever configuration was set before. *)
Theorem config_stays_set (env : Env) (w w' : World) :
  rtc (Use env) w w' →
  config (this w') = config (this w)
  ∧ (is_Some (config (this w)) →
     ∀ assetName, fst (loadCSS env assetName w') ≠ Throw err_not_loaded)
  ∧ ∀ configUrl,
      config (this (snd (loadConfig env configUrl w'))) = None
      ↔ ∃ r v, net env (history w') (Some configUrl) = Resolved r
               ∧ ok r = true ∧ json r = Some v
               ∧ (v = JsonNull ∨ v = JsonPrimitive false).
Proof.
  intros Hrtc.
  assert (Hsame : config (this w') = config (this w)).
  { induction Hrtc as [|x y z Huse _ IH]; [reflexivity|].
    rewrite IH. exact (Use_config env x y Huse). }
  splits; [exact Hsame | |].
  - intros Hset assetName.
    destruct (loadCSS env assetName w') as [res w''] eqn:Hload.
    simpl. intros ->.
    destruct (loadCSS_inv env _ _ _ _ Hload)
      as [(Hnone & _)|[(c & e0 & _ & _ & Herr & E & _)
         |[(c & cssConfig & cached & _ & _ & _ & _ & E & _)
          |[(c & cssConfig & cached & cdn & _ & _ & _ & _ & _ & E & _)
           |(c & cssConfig & Hc & Hcss & Hmiss)]]]]; try discriminate.
    + rewrite <- Hsame, Hnone in Hset. destruct Hset as [? ?]. discriminate.
    + injection E as <-.
      destruct Herr as [(_ & E)|[(a & _ & _ & E)|(a & o & _ & _ & _ & E)]];
        discriminate.
    + destruct (loadCSS_miss_final env _ _ _ _ Hc Hcss Hmiss)
        as (r1 & w1 & r & w2 & _ & _ & _ & Hfinal).
      rewrite Hfinal, store_or_fail_run in Hload.
      destruct r as [b|]; [destruct (truthy_str (Some b))|]; discriminate.
  - intros configUrl. mrun.
    destruct (net env (history w') (Some configUrl)) as [e|r]; simpl.
    + split; [discriminate | intros (r & v & E & _); discriminate].
    + destruct (ok r) eqn:Hok; simpl.
      * destruct (json r) as [v|] eqn:Hjson; simpl.
        -- split.
           ++ intros Hv. exists r, v. splits; auto.
              destruct v as [|[]|o]; simpl in Hv; auto; discriminate.
           ++ intros (r' & v' & E & _ & Hj & Hv). injection E as <-.
              rewrite Hjson in Hj. injection Hj as <-.
              destruct Hv as [->| ->]; reflexivity.
        -- split; [discriminate|].
           intros (r' & v' & E & _ & Hj & _). injection E as <-.
           rewrite Hjson in Hj. discriminate.
      * split; [discriminate|].
        intros (r' & v' & E & Hok' & _). injection E as <-. congruence.
Qed.

(** After [loadConfig], [clearCache] and [checkForUpdates] keep the
    configuration. *)
Lemma config_stays_set_witness :
  config (this (snd (checkForUpdates env_down
                       (snd (clearCache (snd (loadConfig env_down "cfg" world_new)))))))
  = Some default_config.
Proof.
  destruct (config_stays_set env_down
              (snd (loadConfig env_down "cfg" world_new))
              (snd (checkForUpdates env_down
                      (snd (clearCache (snd (loadConfig env_down "cfg" world_new)))))))
    as (Hsame & _).
  - eapply rtc_l; [apply Use_clearCache|].
    eapply rtc_l; [apply Use_checkForUpdates|]. apply rtc_refl.
  - rewrite Hsame. reflexivity.
Defined.

(** ** How the methods compose *)

(** X12: reloading the configuration does not touch the cache.  After a
    [loadCSS] that returned, any [loadConfig] keeps the entry, and a later
    [loadCSS] of the same asset still returns the old content without a
    request, as long as the new configuration lists the asset and the
    entry is fresh by the new [cache_duration], whatever URLs the new
    configuration gives for it. *)
Theorem cache_survives_loadConfig (env : Env) (assetName configUrl : string)
    (w w1 : World) (body : string) :
  loadCSS env assetName w = (Ok body, w1) →
  let w2 := snd (loadConfig env configUrl w1) in
  cache (this w2) = cache (this w1)
  ∧ ∃ entry,
      cache (this w2) !! cacheKey_of assetName = Some entry
      ∧ content entry = body
      ∧ ∀ w3 c cssConfig cdn dur,
          this w3 = this w2 →
          config (this w2) = Some c →
          lookup_asset c assetName = Some cssConfig →
          cdn_config c = Some cdn → cache_duration cdn = Some dur →
          clock env (history w3) - timestamp entry < dur →
          loadCSS env assetName w3
          = (Ok body,
             {| this := this w3;
                history := history w3 ++ [EvConsole (MsgUsingCached assetName)] |}).
Proof.
  intros Hload w2.
  destruct (loadCSS_ok_cached env _ _ _ _ Hload) as (_ & _ & entry & Hentry & Hbody).
  assert (Hcache : cache (this w2) = cache (this w1)).
  { subst w2. destruct (loadConfig_run env configUrl w1) as (c & evs & -> & _).
    reflexivity. }
  split; [exact Hcache|].
  exists entry. rewrite Hcache. splits; auto.
  intros w3 c cssConfig cdn dur Hthis Hc Hcss Hcdn Hdur Hfresh.
  rewrite <- Hbody.
  eapply loadCSS_hit; eauto; rewrite Hthis; [exact Hc | rewrite Hcache; exact Hentry].
Qed.

(** "old" is fetched, the configuration is reloaded, "old" is served again. *)
Lemma cache_survives_loadConfig_witness :
  cache (this (snd (loadConfig env_ticking "cfg"
                      (snd (loadCSS env_ticking "popup" world_two_sources)))))
  = cache (this (snd (loadCSS env_ticking "popup" world_two_sources))).
Proof.
  apply (cache_survives_loadConfig env_ticking "popup" "cfg" world_two_sources
           (snd (loadCSS env_ticking "popup" world_two_sources)) "old").
  vm_compute. reflexivity.
Defined.

(** X13: [clearCache] empties the cache and keeps the configuration, so
    the next [loadCSS] of a configured asset is never served from the
    cache: it cannot return without a request, and it makes one whenever
    the effective attempt count is positive. *)
Theorem clearCache_forces_refetch (env : Env) (assetName : string)
    (w w2 : World) (c : Config) (cssConfig : CssConfig) :
  config (this w) = Some c →
  lookup_asset c assetName = Some cssConfig →
  this w2 = this (snd (clearCache w)) →
  let evs := drop (length (history w2)) (history (snd (loadCSS env assetName w2))) in
  cache (this (snd (clearCache w))) = ∅
  ∧ config (this (snd (clearCache w))) = Some c
  ∧ (fetches evs = [] →
     fst (loadCSS env assetName w2) = Throw (err_failed assetName))
  ∧ (0 < maxAttempts_of (this w2) None → fetches evs ≠ []).
Proof.
  intros Hc Hcss Hthis evs. subst evs. simpl in Hthis.
  assert (Hc2 : config (this w2) = Some c) by (rewrite Hthis; exact Hc).
  assert (Hmiss : check_cache env c assetName w2 = (Ok None, w2)).
  { rewrite check_cache_run, Hthis. simpl. rewrite lookup_empty. reflexivity. }
  destruct (loadCSS env assetName w2) as [res w'] eqn:Hload. simpl.
  destruct (loadCSS_miss_requests env _ _ _ _ _ _ Hc2 Hcss Hmiss Hload) as [Hpos Hnone].
  splits; auto.
Qed.

(** A fresh entry is dropped by [clearCache]: the next call goes out. *)
Lemma clearCache_forces_refetch_witness :
  fetches (drop (length (history (snd (clearCache world_aging))))
             (history (snd (loadCSS env_ticking "popup" (snd (clearCache world_aging))))))
  ≠ [].
Proof.
  destruct (clearCache_forces_refetch env_ticking "popup" world_aging
              (snd (clearCache world_aging))
              (config_with (two_sources "p" "s") None) (two_sources "p" "s"))
    as (_ & _ & _ & Hpos);
    [reflexivity | vm_compute; reflexivity | reflexivity | apply Hpos; reflexivity].
Defined.

(** ** Further properties of loadConfig and checkForUpdates *)

(** X14: [loadConfig] makes exactly one request, to the URL it is given,
    with no retry and no suspension, and leaves the cache and the retry
    defaults alone.  It prints the success line when the remote
    configuration is installed and a warning when the request is rejected
    or the body does not decode; on a non-2xx answer it installs the
    default without printing anything. *)
Theorem loadConfig_single_request (env : Env) (configUrl : string) (w : World) :
  ∃ c evs w',
    loadConfig env configUrl w = (Ok c, w')
    ∧ history w' = history w ++ EvFetch (Some configUrl) :: evs
    ∧ fetches evs = [] ∧ sleeps evs = []
    ∧ cache (this w') = cache (this w)
    ∧ retryAttempts (this w') = retryAttempts (this w)
    ∧ retryDelay (this w') = retryDelay (this w)
    ∧ evs = match net env (history w) (Some configUrl) with
            | Resolved r =>
                if ok r then
                  match json r with
                  | Some _ => [EvConsole MsgConfigLoaded]
                  | None => [EvConsole (MsgConfigFailed
                                          (SyntaxError "Unexpected token in JSON"))]
                  end
                else []
            | Rejected e => [EvConsole (MsgConfigFailed e)]
            end.
Proof.
  destruct (loadConfig_run env configUrl w) as (c & evs & Hrun & Hevs).
  eexists c, evs, _. split; [exact Hrun|]. simpl. splits; auto.
  - rewrite Hevs. destruct (net env (history w) (Some configUrl)) as [e|r];
      [reflexivity|]. destruct (ok r); [destruct (json r)|]; reflexivity.
  - rewrite Hevs. destruct (net env (history w) (Some configUrl)) as [e|r];
      [reflexivity|]. destruct (ok r); [destruct (json r)|]; reflexivity.
Qed.

(** X15: [checkForUpdates] is read-only: it never changes the loader (a
    detected update does not refresh the configuration), makes at most
    one request, to the active [update_check_url], and never suspends. *)
Theorem checkForUpdates_read_only (env : Env) (w : World) :
  this (snd (checkForUpdates env w)) = this w
  ∧ ∃ evs,
      history (snd (checkForUpdates env w)) = history w ++ evs
      ∧ (length (fetches evs) ≤ 1)%nat
      ∧ (∀ u, In u (fetches evs) →
              ∃ c, config (this w) = Some c ∧ u = update_check_url c
                   ∧ truthy_str u = true)
      ∧ sleeps evs = [].
Proof.
  split; [apply checkForUpdates_this|].
  mrun. destruct (config (this w)) as [c|]; simpl;
    [|exists []; rewrite app_nil_r; splits; auto; intros u []].
  destruct (truthy_str (update_check_url c)) eqn:Ht; simpl;
    [|exists []; rewrite app_nil_r; splits; auto; intros u []].
  assert (Hu : ∀ u, In u [update_check_url c] →
                    ∃ c0, Some c = Some c0 ∧ u = update_check_url c0
                          ∧ truthy_str u = true).
  { intros u [<-|[]]. eauto. }
  destruct (net env (history w) (update_check_url c)) as [e|r]; simpl.
  - eexists. rewrite <- app_assoc. split; [reflexivity|]. simpl. splits; auto.
  - destruct (ok r); simpl.
    + destruct (json r) as [[|t|o]|]; simpl; eexists; rewrite <- ?app_assoc;
        (split; [reflexivity|]); simpl; splits; auto.
    + eexists. split; [reflexivity|]. simpl. splits; auto.
Qed.

(** ** getCacheInfo and the life of cache entries *)

(** [content.length] counts UTF-16 code units, not bytes. *)
Example js_length_units :
  js_length "css" = 3%nat ∧ js_length "é" = 1%nat ∧ js_length "€" = 1%nat
  ∧ js_length "😀" = 2%nat ∧ String.length "é" = 2%nat.
Proof. splits; reflexivity. Qed.

(** X16: [getCacheInfo] is a snapshot: it never throws and leaves the
    world as it is; it lists each cache key exactly once, with the
    length of its content (in UTF-16 code units) and its age at the time
    of the call. *)
Theorem getCacheInfo_snapshot (env : Env) (w : World) :
  ∃ infos,
    getCacheInfo env w = (Ok infos, w)
    ∧ length infos = size (cache (this w))
    ∧ NoDup (map info_key infos)
    ∧ ∀ key sz age,
        In {| info_key := key; info_size := sz; info_age := age |} infos
        ↔ ∃ entry, cache (this w) !! key = Some entry
                   ∧ sz = js_length (content entry)
                   ∧ age = clock env (history w) - timestamp entry.
Proof.
  eexists. split; [apply getCacheInfo_run|]. splits.
  - rewrite length_map. apply length_map_to_list.
  - rewrite map_map. simpl. apply NoDup_fst_map_to_list.
  - intros key sz age. rewrite in_map_iff. split.
    + intros ([k entry] & E & Hin). simpl in E. injection E as <- <- <-.
      apply list_elem_of_In, elem_of_map_to_list in Hin. eauto.
    + intros (entry & Hlook & -> & ->). exists (key, entry).
      split; [reflexivity|]. apply list_elem_of_In, elem_of_map_to_list. exact Hlook.
Qed.

(** X17: [getCacheInfo] after [clearCache] is empty, and after a
    [loadCSS] that returned [body] it lists the key ["css_" + assetName]
    with the length of [body] in UTF-16 code units. *)
Theorem getCacheInfo_after (env : Env) (assetName : string) (w : World) :
  fst (getCacheInfo env (snd (clearCache w))) = Ok []
  ∧ ∀ body w1 w2,
      loadCSS env assetName w = (Ok body, w1) →
      this w2 = this w1 →
      ∃ infos info,
        getCacheInfo env w2 = (Ok infos, w2)
        ∧ In info infos
        ∧ info_key info = "css_" +:+ assetName
        ∧ info_size info = js_length body.
Proof.
  split.
  - rewrite getCacheInfo_run. simpl. rewrite map_to_list_empty. reflexivity.
  - intros body w1 w2 Hload Hthis.
    destruct (loadCSS_ok_cached env _ _ _ _ Hload) as (_ & _ & entry & Hentry & Hbody).
    eexists _, {| info_key := cacheKey_of assetName;
                  info_size := js_length body;
                  info_age := clock env (history w2) - timestamp entry |}.
    split; [apply getCacheInfo_run|]. splits; auto.
    apply in_map_iff. exists (cacheKey_of assetName, entry). simpl.
    rewrite Hbody. split; [reflexivity|].
    apply list_elem_of_In, elem_of_map_to_list. rewrite Hthis. exact Hentry.
Qed.

(** The fetched "é{}" shows up with size 3, not with its 4 bytes. *)
Lemma getCacheInfo_after_witness :
  ∃ infos info,
    getCacheInfo (env_only "p" "é{}") (snd (loadCSS (env_only "p" "é{}") "popup" world_two_sources))
      = (Ok infos, snd (loadCSS (env_only "p" "é{}") "popup" world_two_sources))
    ∧ In info infos
    ∧ info_size info = 3%nat.
Proof.
  destruct (proj2 (getCacheInfo_after (env_only "p" "é{}") "popup" world_two_sources)
              "é{}"
              (snd (loadCSS (env_only "p" "é{}") "popup" world_two_sources))
              (snd (loadCSS (env_only "p" "é{}") "popup" world_two_sources)))
    as (infos & info & Hrun & Hin & _ & Hsize);
    [vm_compute; reflexivity | reflexivity |].
  exists infos, info. splits; auto.
Defined.

(** X18: nothing is ever evicted.  [loadConfig], [loadCSS],
    [fetchWithRetry], [checkForUpdates] and [getCacheInfo] never remove a
    cache key: an expired entry stays in the cache until it is
    overwritten or the cache is cleared.  Only [clearCache] removes
    keys, and it removes them all. *)
Theorem cache_never_evicts (env : Env) (w : World) (key : string) :
  is_Some (cache (this w) !! key) →
  (∀ configUrl,
     is_Some (cache (this (snd (loadConfig env configUrl w))) !! key))
  ∧ (∀ assetName,
       is_Some (cache (this (snd (loadCSS env assetName w))) !! key))
  ∧ (∀ url attempts,
       is_Some (cache (this (snd (fetchWithRetry env url attempts w))) !! key))
  ∧ is_Some (cache (this (snd (checkForUpdates env w))) !! key)
  ∧ is_Some (cache (this (snd (getCacheInfo env w))) !! key)
  ∧ cache (this (snd (clearCache w))) = ∅.
Proof.
  intros Hkey. splits.
  - intros configUrl.
    destruct (loadConfig_this env configUrl w) as (-> & _). exact Hkey.
  - intros assetName.
    destruct (loadCSS env assetName w) as [res w'] eqn:Hload. simpl.
    destruct (loadCSS_this env _ _ _ _ Hload) as [->|(body & w2 & _ & Hw2 & ->)];
      [exact Hkey|].
    simpl. rewrite Hw2.
    destruct (decide (cacheKey_of assetName = key)) as [<-|Hne].
    + rewrite lookup_insert_eq. eauto.
    + rewrite lookup_insert_ne by exact Hne. exact Hkey.
  - intros url attempts.
    destruct (fetchWithRetry_run env url attempts w)
      as (res & evs & w' & Hrun & Hthis & _).
    rewrite Hrun. simpl. rewrite Hthis. exact Hkey.
  - rewrite checkForUpdates_this. exact Hkey.
  - rewrite getCacheInfo_run. exact Hkey.
  - reflexivity.
Qed.

(** A failed reload of an expired entry: the entry is still listed. *)
Lemma cache_never_evicts_witness :
  is_Some (cache (this (snd (loadCSS env_down "popup" world_stale))) !! "css_popup").
Proof.
  apply (proj1 (proj2 (cache_never_evicts env_down world_stale "css_popup"
                         ltac:(eexists; vm_compute; reflexivity)))).
Defined.

(** ** The document *)

(** Induction on a tree, with the property for all the children. *)
Lemma Node_forest_ind (P : Node → Prop) :
  (∀ t j r h x cs, Forall P cs → P (mkNode t j r h x cs)) →
  ∀ n, P n.
Proof.
  intros H. fix IH 1. intros [t j r h x cs]. apply H.
  induction cs as [|c cs IHcs]; constructor; [apply IH | exact IHcs].
Qed.

Lemma find_node_eq i t j r h x cs :
  find_node i (mkNode t j r h x cs)
  = if String.eqb j i then Some (mkNode t j r h x cs) else find_forest i cs.
Proof.
  simpl. destruct (String.eqb j i); [reflexivity|].
  induction cs as [|c cs IH]; simpl; [reflexivity|].
  destruct (find_node i c); [reflexivity | exact IH].
Qed.

Lemma remove_below_eq i t j r h x cs :
  remove_below i (mkNode t j r h x cs) = mkNode t j r h x (remove_forest i cs).
Proof.
  simpl. f_equal. induction cs as [|c cs IH]; simpl; [reflexivity|].
  destruct (String.eqb (id_of c) i); [reflexivity|].
  destruct (find_node i c); [reflexivity | rewrite IH; reflexivity].
Qed.

Lemma count_node_eq i t j r h x cs :
  count_node i (mkNode t j r h x cs)
  = ((if String.eqb j i then 1 else 0) + count_forest i cs)%nat.
Proof. reflexivity. Qed.

Lemma count_forest_cons i c l :
  count_forest i (c :: l) = (count_node i c + count_forest i l)%nat.
Proof. reflexivity. Qed.

Lemma count_forest_app i l1 l2 :
  count_forest i (l1 ++ l2) = (count_forest i l1 + count_forest i l2)%nat.
Proof.
  induction l1 as [|c l1 IH]; [reflexivity|].
  simpl app. rewrite !count_forest_cons, IH. lia.
Qed.

Lemma find_forest_app i l1 l2 :
  find_forest i (l1 ++ l2)
  = match find_forest i l1 with
    | Some x => Some x
    | None => find_forest i l2
    end.
Proof.
  induction l1 as [|c l1 IH]; [reflexivity|]. simpl.
  destruct (find_node i c); [reflexivity | exact IH].
Qed.

(** An element is found exactly when one is counted, and what is found
    has the id that was asked for. *)
Lemma find_node_count i :
  ∀ n, (find_node i n = None ↔ count_node i n = 0%nat)
       ∧ ∀ x, find_node i n = Some x → id_of x = i.
Proof.
  apply Node_forest_ind. intros t j r h x cs IH.
  rewrite find_node_eq, count_node_eq.
  assert (Hcs : (find_forest i cs = None ↔ count_forest i cs = 0%nat)
                ∧ ∀ y, find_forest i cs = Some y → id_of y = i).
  { induction IH as [|c cs [Hc Hid] _ [IHn IHid]]; [split; [tauto | discriminate]|].
    simpl find_forest. rewrite count_forest_cons.
    destruct (find_node i c) as [y|] eqn:Hf.
    - split; [|intros y' E; injection E as <-; auto].
      split; [discriminate|]. intros E.
      assert (count_node i c = 0%nat) by lia. apply Hc in H. discriminate.
    - split; [|exact IHid].
      rewrite IHn. pose proof (proj1 Hc eq_refl). lia. }
  destruct (String.eqb_spec j i) as [->|Hne].
  - split; [split; [discriminate | lia]|]. intros y E. injection E as <-. reflexivity.
  - simpl. exact Hcs.
Qed.

Lemma find_forest_count i l :
  (find_forest i l = None ↔ count_forest i l = 0%nat)
  ∧ ∀ x, find_forest i l = Some x → id_of x = i.
Proof.
  induction l as [|c l [IHn IHid]]; [split; [tauto | discriminate]|].
  simpl find_forest. rewrite count_forest_cons.
  destruct (find_node_count i c) as [Hc Hid].
  destruct (find_node i c) as [y|] eqn:Hf.
  - split; [|intros y' E; injection E as <-; auto].
    split; [discriminate|]. intros E.
    assert (H : count_node i c = 0%nat) by lia. apply Hc in H. discriminate.
  - split; [|exact IHid]. rewrite IHn. pose proof (proj1 Hc eq_refl). lia.
Qed.

Lemma count_node_found i x : id_of x = i → (1 ≤ count_node i x)%nat.
Proof.
  destruct x as [t j r h y cs]. simpl. intros ->.
  rewrite String.eqb_refl. lia.
Qed.

(** Removing takes away exactly the element found, with its subtree:
    for every id [k], what is counted goes down by what was under it. *)
Lemma remove_below_count_any i k :
  ∀ n x, String.eqb (id_of n) i = false → find_node i n = Some x →
         (count_node k (remove_below i n) + count_node k x = count_node k n)%nat.
Proof.
  apply (Node_forest_ind (λ n, ∀ x, String.eqb (id_of n) i = false →
            find_node i n = Some x →
            (count_node k (remove_below i n) + count_node k x = count_node k n)%nat)).
  intros t j r h y cs IH x Hj Hf. simpl in Hj.
  rewrite find_node_eq, Hj in Hf.
  rewrite remove_below_eq, !count_node_eq.
  assert (Hcs : (count_forest k (remove_forest i cs) + count_node k x
                 = count_forest k cs)%nat); [|lia].
  revert x Hf. induction IH as [|c cs Hc _ IHcs]; intros x Hf; [discriminate|].
  simpl in Hf. simpl remove_forest.
  destruct (String.eqb (id_of c) i) eqn:Hci.
  - destruct c as [t' j' r' h' y' cs']. simpl in Hci.
    rewrite find_node_eq, Hci in Hf. injection Hf as <-.
    rewrite count_forest_cons. lia.
  - destruct (find_node i c) as [z|] eqn:Hfc.
    + injection Hf as <-. rewrite !count_forest_cons.
      specialize (Hc z eq_refl eq_refl). lia.
    + rewrite !count_forest_cons. specialize (IHcs x Hf). lia.
Qed.

Lemma remove_forest_count_any i k l x :
  find_forest i l = Some x →
  (count_forest k (remove_forest i l) + count_node k x = count_forest k l)%nat.
Proof.
  revert x. induction l as [|c l IH]; intros x Hf; [discriminate|].
  simpl in Hf. simpl remove_forest.
  destruct (String.eqb (id_of c) i) eqn:Hci.
  - destruct c as [t' j' r' h' y' cs']. simpl in Hci.
    rewrite find_node_eq, Hci in Hf. injection Hf as <-.
    rewrite count_forest_cons. lia.
  - destruct (find_node i c) as [z|] eqn:Hfc.
    + injection Hf as <-. rewrite !count_forest_cons.
      pose proof (remove_below_count_any i k c z Hci Hfc). lia.
    + rewrite !count_forest_cons. specialize (IH x Hf). lia.
Qed.

Lemma remove_forest_count i l x :
  find_forest i l = Some x →
  (count_forest i (remove_forest i l) + count_node i x = count_forest i l)%nat.
Proof. apply remove_forest_count_any. Qed.

Lemma remove_forest_none i l :
  find_forest i l = None → remove_forest i l = l.
Proof.
  induction l as [|c l IH]; [reflexivity|]. simpl.
  destruct (find_node i c) as [z|] eqn:Hfc; [discriminate|]. intros Hf.
  destruct (String.eqb (id_of c) i) eqn:Hci.
  - destruct c as [t' j' r' h' y' cs']. simpl in Hci.
    rewrite find_node_eq, Hci in Hfc. discriminate.
  - rewrite (IH Hf). reflexivity.
Qed.

Lemma remove_forest_app_none i l1 l2 :
  find_forest i l1 = None →
  remove_forest i (l1 ++ l2) = l1 ++ remove_forest i l2.
Proof.
  induction l1 as [|c l1 IH]; [reflexivity|]. simpl.
  destruct (find_node i c) as [z|] eqn:Hfc; [discriminate|]. intros Hf.
  destruct (String.eqb (id_of c) i) eqn:Hci.
  - destruct c as [t' j' r' h' y' cs']. simpl in Hci.
    rewrite find_node_eq, Hci in Hfc. discriminate.
  - rewrite (IH Hf). reflexivity.
Qed.

Lemma getElementById_nonempty i d :
  i ≠ "" →
  getElementById i d = find_forest i (head_children d ++ body_children d).
Proof.
  intros Hi. unfold getElementById.
  destruct (String.eqb_spec i ""); [contradiction | reflexivity].
Qed.

Lemma applyCSS_replace css styleId d :
  fst (applyCSS css styleId d)
  = replace_by_id (default "external-styles" styleId)
      (mkNode "style" (default "external-styles" styleId) "" "" css []) d.
Proof. reflexivity. Qed.

Lemma loadCSSLink_replace browser url linkId d :
  snd (fst (loadCSSLink browser url linkId d))
  = replace_by_id (default "external-css-link" linkId)
      (mkNode "link" (default "external-css-link" linkId) "stylesheet" url "" []) d.
Proof. unfold loadCSSLink. destruct (browser url); reflexivity. Qed.

(** The count of elements with id [i] after a replacement: the element
    found leaves with its subtree, the new one arrives. *)
Lemma replace_by_id_count i n d :
  i ≠ "" → count_node i n = 1%nat →
  match getElementById i d with
  | Some x =>
      (count_document i (replace_by_id i n d) + count_node i x
       = count_document i d + 1)%nat
  | None =>
      count_document i d = 0%nat
      ∧ count_document i (replace_by_id i n d) = 1%nat
  end.
Proof.
  intros Hi Hn. unfold replace_by_id.
  rewrite (getElementById_nonempty i d Hi), find_forest_app.
  unfold remove_element, count_document, appendChild_head.
  destruct (find_forest i (head_children d)) as [x|] eqn:Hh; simpl.
  - pose proof (remove_forest_count i _ x Hh).
    rewrite count_forest_app, count_forest_cons, Hn.
    change (count_forest i []) with 0%nat. lia.
  - pose proof (proj1 (proj1 (find_forest_count i (head_children d))) Hh) as H0.
    destruct (find_forest i (body_children d)) as [x|] eqn:Hb; simpl.
    + pose proof (remove_forest_count i _ x Hb).
      rewrite count_forest_app, count_forest_cons, Hn.
      change (count_forest i []) with 0%nat. lia.
    + pose proof (proj1 (proj1 (find_forest_count i (body_children d))) Hb) as H1.
      rewrite count_forest_app, count_forest_cons, Hn.
      change (count_forest i []) with 0%nat. lia.
Qed.

(** With at most one element of id [i] in the document, the replacement
    has a simple shape, and nothing with that id is left beside [n]. *)
Lemma replace_by_id_unique i n d :
  i ≠ "" → (count_document i d ≤ 1)%nat →
  replace_by_id i n d
  = {| head_children := remove_forest i (head_children d) ++ [n];
       body_children := remove_forest i (body_children d) |}
  ∧ find_forest i (remove_forest i (head_children d)) = None
  ∧ find_forest i (remove_forest i (body_children d)) = None.
Proof.
  intros Hi Hle. unfold replace_by_id.
  rewrite (getElementById_nonempty i d Hi), find_forest_app.
  unfold remove_element, count_document, appendChild_head in *.
  destruct (find_forest_count i (head_children d)) as [Hhn Hhid].
  destruct (find_forest_count i (body_children d)) as [Hbn Hbid].
  destruct (find_forest i (head_children d)) as [x|] eqn:Hh; simpl.
  - pose proof (remove_forest_count i _ x Hh) as Hc.
    pose proof (count_node_found i x (Hhid x eq_refl)) as Hx.
    assert (Hb0 : find_forest i (body_children d) = None) by (apply Hbn; lia).
    rewrite (remove_forest_none i _ Hb0). splits; auto.
    apply find_forest_count. lia.
  - pose proof (proj1 Hhn eq_refl) as H0.
    rewrite (remove_forest_none i (head_children d)) by exact Hh.
    destruct (find_forest i (body_children d)) as [x|] eqn:Hb; simpl.
    + pose proof (remove_forest_count i _ x Hb) as Hc.
      pose proof (count_node_found i x (Hbid x eq_refl)) as Hx.
      splits; auto. apply find_forest_count. lia.
    + rewrite (remove_forest_none i (body_children d)) by exact Hb.
      destruct d. splits; auto.
Qed.

Lemma replace_by_id_found i n d :
  i ≠ "" → id_of n = i → (count_document i d ≤ 1)%nat →
  getElementById i (replace_by_id i n d) = Some n.
Proof.
  intros Hi Hn Hle.
  destruct (replace_by_id_unique i n d Hi Hle) as (-> & Hh & Hb).
  rewrite (getElementById_nonempty _ _ Hi). simpl.
  rewrite !find_forest_app, Hh. simpl.
  destruct n as [t j r h x cs]. simpl in Hn. subst j.
  rewrite find_node_eq, String.eqb_refl. reflexivity.
Qed.

Lemma replace_by_id_twice i n1 n2 d :
  i ≠ "" → id_of n1 = i → (count_document i d ≤ 1)%nat →
  replace_by_id i n2 (replace_by_id i n1 d) = replace_by_id i n2 d.
Proof.
  intros Hi Hn1 Hle.
  destruct (replace_by_id_unique i n1 d Hi Hle) as (E1 & Hh & Hb).
  destruct (replace_by_id_unique i n2 d Hi Hle) as (E2 & _ & _).
  rewrite E2, E1. unfold replace_by_id.
  rewrite (getElementById_nonempty _ _ Hi). simpl.
  assert (Hf : find_forest i (remove_forest i (head_children d) ++ [n1]) = Some n1).
  { rewrite find_forest_app, Hh. simpl.
    destruct n1 as [t j r h x cs]. simpl in Hn1. subst j.
    rewrite find_node_eq, String.eqb_refl. reflexivity. }
  rewrite find_forest_app, Hf. unfold remove_element, appendChild_head. simpl.
  rewrite Hf. simpl.
  rewrite (remove_forest_app_none i _ [n1] Hh). simpl.
  rewrite Hn1, String.eqb_refl, app_nil_r. reflexivity.
Qed.

(** ** applyCSS and loadCSSLink *)

(** X19: [applyCSS] prints its line and leaves the new style element,
    with the given id and text, as the last child of the head.  For a
    non-empty id, the element that [getElementById] found (the first in
    tree order) is gone with its subtree and nothing else: the count of
    elements with that id drops by what was under it and grows by one.
    If the document had at most one element with that id, it now has
    exactly one, and [getElementById] returns the new style. *)
Theorem applyCSS_installs (cssContent : string) (styleId : option string)
    (d : Document) :
  let i := default "external-styles" styleId in
  let style := mkNode "style" i "" "" cssContent [] in
  let d' := fst (applyCSS cssContent styleId d) in
  snd (applyCSS cssContent styleId d) = [LogCssApplied i]
  ∧ last (head_children d') = Some style
  ∧ (i ≠ "" →
     match getElementById i d with
     | Some x => (count_document i d' + count_node i x = count_document i d + 1)%nat
     | None => count_document i d' = 1%nat
     end)
  ∧ (i ≠ "" → (count_document i d ≤ 1)%nat →
     count_document i d' = 1%nat ∧ getElementById i d' = Some style).
Proof.
  intros i style d'. subst d'. rewrite applyCSS_replace. fold i. fold style.
  assert (Hs : count_node i style = 1%nat).
  { unfold style. simpl. rewrite String.eqb_refl. reflexivity. }
  splits.
  - reflexivity.
  - unfold replace_by_id, appendChild_head. simpl. apply last_snoc.
  - intros Hi. pose proof (replace_by_id_count i style d Hi Hs) as H.
    destruct (getElementById i d); [exact H | exact (proj2 H)].
  - intros Hi Hle. split; [|apply replace_by_id_found; auto].
    destruct (replace_by_id_unique i style d Hi Hle) as (-> & Hh & Hb).
    unfold count_document. simpl.
    rewrite count_forest_app, count_forest_cons, Hs.
    rewrite (proj1 (proj1 (find_forest_count i _)) Hh),
            (proj1 (proj1 (find_forest_count i _)) Hb).
    reflexivity.
Qed.

(** The old external style is replaced by the new one. *)
Lemma applyCSS_installs_witness :
  getElementById "external-styles" (fst (applyCSS "new{}" None page_with_style))
  = Some (mkNode "style" "external-styles" "" "" "new{}" []).
Proof.
  apply (proj2 (proj2 (proj2 (applyCSS_installs "new{}" None page_with_style)))).
  - discriminate.
  - vm_compute. lia.
Defined.

(** X20: the last write wins.  With a non-empty id and at most one
    element of that id in the document, applying a second stylesheet
    after a first gives the same document as applying the second alone:
    the first style element is removed again, nothing piles up. *)
Theorem applyCSS_last_wins (css1 css2 : string) (styleId : option string)
    (d : Document) :
  default "external-styles" styleId ≠ "" →
  (count_document (default "external-styles" styleId) d ≤ 1)%nat →
  fst (applyCSS css2 styleId (fst (applyCSS css1 styleId d)))
  = fst (applyCSS css2 styleId d).
Proof.
  intros Hi Hle. rewrite !applyCSS_replace.
  apply replace_by_id_twice; auto.
Qed.

Lemma applyCSS_last_wins_witness :
  fst (applyCSS "b{}" None (fst (applyCSS "a{}" None page_with_style)))
  = fst (applyCSS "b{}" None page_with_style).
Proof.
  apply (applyCSS_last_wins "a{}" "b{}" None page_with_style).
  - discriminate.
  - vm_compute. lia.
Defined.

(** X21: repetition.  With a non-empty id and at most one element of
    that id, calling [applyCSS] any number of times with the same
    arguments gives the document of a single call.  With the empty id
    nothing is ever found or removed: every call adds one more style
    element to the head, and [getElementById] cannot find any of them. *)
Theorem applyCSS_repeated (cssContent : string) (styleId : option string)
    (d : Document) (k : nat) :
  let once := λ d, fst (applyCSS cssContent styleId d) in
  (default "external-styles" styleId ≠ "" →
   (count_document (default "external-styles" styleId) d ≤ 1)%nat →
   Nat.iter (S k) once d = once d)
  ∧ (styleId = Some "" →
     length (head_children (Nat.iter k once d)) = (length (head_children d) + k)%nat
     ∧ body_children (Nat.iter k once d) = body_children d
     ∧ getElementById "" (Nat.iter k once d) = None).
Proof.
  intros once. split.
  - intros Hi Hle. induction k as [|k IH]; [reflexivity|].
    change (Nat.iter (S (S k)) once d) with (once (Nat.iter (S k) once d)).
    rewrite IH. unfold once. rewrite !applyCSS_replace.
    apply replace_by_id_twice; auto.
  - intros ->. induction k as [|k (IHl & IHb & _)]; [simpl; splits; auto; lia|].
    change (Nat.iter (S k) once d) with (once (Nat.iter k once d)).
    unfold once at 1 3 5. unfold applyCSS, getElementById. simpl.
    rewrite length_app, IHl, IHb. simpl. splits; auto. lia.
Qed.

(** Three calls with the default id leave what one call leaves. *)
Lemma applyCSS_repeated_witness :
  Nat.iter 3 (λ d, fst (applyCSS "a{}" None d)) page_with_style
  = fst (applyCSS "a{}" None page_with_style).
Proof.
  apply (proj1 (applyCSS_repeated "a{}" None page_with_style 2)).
  - discriminate.
  - vm_compute. lia.
Defined.

(** X22: [loadCSSLink] puts a link element with the given id,
    [rel = "stylesheet"] and [href = url] at the end of the head, after
    dropping the element [getElementById] found for that id.  The promise
    resolves exactly when the browser fires [load], rejects with
    "Failed to load CSS from <url>" exactly when it fires [error], and
    stays pending otherwise; the document is the same in the three cases:
    a link that failed to load is left in the page. *)
Theorem loadCSSLink_settles (browser : string → LinkEvent) (url : string)
    (linkId : option string) (d : Document) :
  let i := default "external-css-link" linkId in
  let link := mkNode "link" i "stylesheet" url "" [] in
  let result := fst (fst (loadCSSLink browser url linkId d)) in
  let d' := snd (fst (loadCSSLink browser url linkId d)) in
  d' = replace_by_id i link d
  ∧ last (head_children d') = Some link
  ∧ (∀ other, snd (fst (loadCSSLink other url linkId d)) = d')
  ∧ (result = Some (Ok tt) ↔ browser url = LinkLoad)
  ∧ (result = Some (Throw (Error ("Failed to load CSS from " +:+ url)))
     ↔ browser url = LinkError)
  ∧ (result = None ↔ browser url = LinkSilent)
  ∧ (i ≠ "" → (count_document i d ≤ 1)%nat →
     count_document i d' = 1%nat ∧ getElementById i d' = Some link).
Proof.
  intros i link result d'. subst d' result.
  rewrite loadCSSLink_replace. fold i. fold link.
  assert (Hs : count_node i link = 1%nat).
  { unfold link. simpl. rewrite String.eqb_refl. reflexivity. }
  splits.
  - reflexivity.
  - unfold replace_by_id, appendChild_head. simpl. apply last_snoc.
  - intros other. apply loadCSSLink_replace.
  - unfold loadCSSLink. destruct (browser url); simpl; split; congruence.
  - unfold loadCSSLink. destruct (browser url); simpl; split; congruence.
  - unfold loadCSSLink. destruct (browser url); simpl; split; congruence.
  - intros Hi Hle. split; [|apply replace_by_id_found; auto].
    destruct (replace_by_id_unique i link d Hi Hle) as (-> & Hh & Hb).
    unfold count_document. simpl.
    rewrite count_forest_app, count_forest_cons, Hs.
    rewrite (proj1 (proj1 (find_forest_count i _)) Hh),
            (proj1 (proj1 (find_forest_count i _)) Hb).
    reflexivity.
Qed.

(** Elements with another id: the replacement takes away those under the
    element found, and adds none. *)
Lemma replace_by_id_count_other i k n d :
  i ≠ "" → count_node k n = 0%nat →
  match getElementById i d with
  | Some x =>
      (count_document k (replace_by_id i n d) + count_node k x
       = count_document k d)%nat
  | None => count_document k (replace_by_id i n d) = count_document k d
  end.
Proof.
  intros Hi Hn. unfold replace_by_id.
  rewrite (getElementById_nonempty i d Hi), find_forest_app.
  unfold remove_element, count_document, appendChild_head.
  destruct (find_forest i (head_children d)) as [x|] eqn:Hh; simpl.
  - pose proof (remove_forest_count_any i k _ x Hh).
    rewrite count_forest_app, count_forest_cons, Hn.
    change (count_forest k []) with 0%nat. lia.
  - destruct (find_forest i (body_children d)) as [x|] eqn:Hb; simpl.
    + pose proof (remove_forest_count_any i k _ x Hb).
      rewrite count_forest_app, count_forest_cons, Hn.
      change (count_forest k []) with 0%nat. lia.
    + rewrite count_forest_app, count_forest_cons, Hn.
      change (count_forest k []) with 0%nat. lia.
Qed.

(** X23: the two helpers do not add or duplicate anything under another
    id.  For an id [k] different from the (non-empty) id in use, the
    number of elements with id [k] goes down by those that were inside
    the removed element and is otherwise unchanged: it stays the same
    when nothing was found, or when what was found held no such element
    (a style or link element has no element children). *)
Theorem applyCSS_other_ids (cssContent url : string) (styleId linkId : option string)
    (browser : string → LinkEvent) (k : string) (d : Document) :
  let i := default "external-styles" styleId in
  let j := default "external-css-link" linkId in
  (i ≠ "" → k ≠ i →
   match getElementById i d with
   | Some x =>
       (count_document k (fst (applyCSS cssContent styleId d)) + count_node k x
        = count_document k d)%nat
   | None =>
       count_document k (fst (applyCSS cssContent styleId d)) = count_document k d
   end)
  ∧ (j ≠ "" → k ≠ j →
     match getElementById j d with
     | Some x =>
         (count_document k (snd (fst (loadCSSLink browser url linkId d)))
          + count_node k x = count_document k d)%nat
     | None =>
         count_document k (snd (fst (loadCSSLink browser url linkId d)))
         = count_document k d
     end).
Proof.
  intros i j. split.
  - intros Hi Hk. rewrite applyCSS_replace. fold i.
    apply replace_by_id_count_other; [exact Hi|].
    simpl. destruct (String.eqb_spec i k); [congruence | reflexivity].
  - intros Hj Hk. rewrite loadCSSLink_replace. fold j.
    apply replace_by_id_count_other; [exact Hj|].
    simpl. destruct (String.eqb_spec j k); [congruence | reflexivity].
Qed.

(** Replacing the external style leaves the one [app] element in place. *)
Lemma applyCSS_other_ids_witness :
  count_document "app" (fst (applyCSS "new{}" None page_with_style)) = 1%nat.
Proof.
  pose proof (proj1 (applyCSS_other_ids "new{}" "u" None None (λ _, LinkLoad)
                       "app" page_with_style)) as H.
  cbv zeta in H. specialize (H ltac:(discriminate) ltac:(discriminate)).
  vm_compute (getElementById _ _) in H. cbv beta iota in H.
  vm_compute (count_node _ _) in H.
  rewrite Nat.add_0_r in H. rewrite H. vm_compute. reflexivity.
Defined.

(** ** Waiting time of loadCSS and ages of entries *)





(** X25: ages are never negative when the clock does not run backwards.
    If the clock reading never decreases as the history grows, then in
    every world reached from a new loader each entry's timestamp is at
    most the current reading, so [getCacheInfo] reports only
    non-negative ages. *)
Theorem getCacheInfo_ages_nonnegative (env : Env) (w : World) :
  (∀ h tl, clock env h ≤ clock env (h ++ tl)) →
  rtc (Call env) world_new w →
  (∀ key entry, cache (this w) !! key = Some entry →
                timestamp entry ≤ clock env (history w))
  ∧ ∃ infos, getCacheInfo env w = (Ok infos, w)
             ∧ Forall (λ info, 0 ≤ info_age info) infos.
Proof.
  intros Hmono Hrtc.
  assert (Hts : ∀ key entry, cache (this w) !! key = Some entry →
                             timestamp entry ≤ clock env (history w)).
  { intros key entry Hlook.
    destruct (rtc_Call_cache_wellformed env w Hrtc key entry Hlook)
      as (_ & _ & h & tl & -> & ->). apply Hmono. }
  split; [exact Hts|].
  eexists. split; [apply getCacheInfo_run|].
  apply Forall_map, Forall_forall. intros [key entry] Hin. simpl.
  apply elem_of_map_to_list in Hin. specialize (Hts key entry Hin). lia.
Qed.

(** The event-counting clock of [env_up] never runs backwards. *)
Lemma getCacheInfo_ages_nonnegative_witness :
  ∃ infos,
    getCacheInfo env_up (snd (loadCSS env_up "popup" (snd (loadConfig env_up "cfg" world_new))))
    = (Ok infos, snd (loadCSS env_up "popup" (snd (loadConfig env_up "cfg" world_new))))
    ∧ Forall (λ info, 0 ≤ info_age info) infos.
Proof.
  apply (getCacheInfo_ages_nonnegative env_up
           (snd (loadCSS env_up "popup" (snd (loadConfig env_up "cfg" world_new))))).
  - intros h tl. simpl. rewrite length_app. lia.
  - eapply rtc_l; [apply Call_loadConfig|].
    eapply rtc_l; [apply Call_loadCSS|]. apply rtc_refl.
Defined.

(** X26: the cache holds one entry per asset.  A call of [loadCSS] adds
    at most one entry; it adds none when the asset already had one (the
    entry is overwritten in place) or when the call throws. *)
Theorem loadCSS_cache_growth (env : Env) (assetName : string) (w : World) :
  let old := cache (this w) in
  let new := cache (this (snd (loadCSS env assetName w))) in
  (size old ≤ size new ≤ size old + 1)%nat
  ∧ (is_Some (old !! cacheKey_of assetName) → size new = size old)
  ∧ (∀ e, fst (loadCSS env assetName w) = Throw e → new = old).
Proof.
  intros old new. subst old new.
  destruct (loadCSS env assetName w) as [res w'] eqn:Hload. simpl.
  destruct (loadCSS_this env _ _ _ _ Hload) as [->|(body & w2 & -> & Hw2 & ->)].
  - splits; auto. lia.
  - simpl. rewrite Hw2, map_size_insert. splits.
    + destruct (cache (this w) !! cacheKey_of assetName); simpl; lia.
    + destruct (cache (this w) !! cacheKey_of assetName); simpl; lia.
    + intros [entry ->]. reflexivity.
    + intros e E. discriminate.
Qed.

(** A successful reload of an expired entry keeps the cache at one entry. *)
Lemma loadCSS_cache_growth_witness :
  size (cache (this (snd (loadCSS env_up "popup" world_stale))))
  = size (cache (this world_stale)).
Proof.
  apply (proj1 (proj2 (loadCSS_cache_growth env_up "popup" world_stale))).
  eexists. vm_compute. reflexivity.
Defined.
